(** * GeminiLiveServer: the session coordinator of [main.py]

    A shallow embedding of [class GeminiSession] and of the connection
    supervisor [websocket_endpoint].  The Python coroutines become
    computations in a state-and-exception monad over a [World]: the
    attributes of the session object and the trace of everything the
    coroutine did to its collaborators (the client websocket, the
    upstream live session, the logger).  Whether a call on a collaborator
    raises is decided by an environment [Env], so every statement below is
    quantified over all behaviours of the network.

    The outbound coroutine [receive_responses] is resumable: it is run on
    the upstream items that have arrived and stops where it stands when
    they run out.  The endpoint resumes it each time it is suspended in
    [receive_text], on the items its script says arrive meanwhile; this
    is the interleaving of the two loops at the granularity of one
    inbound message.  Exceptions are those of class [Exception];
    cancellation of the endpoint itself is outside the model. *)

From Stdlib Require Import List String Ascii Bool Arith ZArith Lia.
From Stdlib.Strings Require Import Byte.
Import ListNotations.
Open Scope string_scope.
Open Scope list_scope.

Set Implicit Arguments.
Set Warnings "-register-all".

(** ** Values exchanged with the collaborators *)

Definition bytes := list byte.

(** What [json.loads] returns, and what travels in [fc.args].  Numbers are
    integers here; none of the code below looks inside one. *)
Inductive json : Type :=
| JNull
| JBool (b : bool)
| JInt (n : Z)
| JStr (s : string)
| JArr (l : list json)
| JObj (kv : list (string * json)).

(** Python's [bool(v)]. *)
Definition truthy (v : json) : bool :=
  match v with
  | JNull => false
  | JBool b => b
  | JInt n => negb (Z.eqb n 0)
  | JStr s => negb (String.eqb s "")
  | JArr l => negb (Nat.eqb (List.length l) 0)
  | JObj kv => negb (Nat.eqb (List.length kv) 0)
  end.

(** Python's [v == "literal"]: only a string can be equal to a string. *)
Definition eq_str (v : json) (lit : string) : bool :=
  match v with
  | JStr s => String.eqb s lit
  | _ => false
  end.

Fixpoint assoc (k : string) (kv : list (string * json)) : option json :=
  match kv with
  | [] => None
  | (k', v) :: rest => if String.eqb k k' then Some v else assoc k rest
  end.

(** The two exception classes the code tells apart, each with the text
    that [str(e)] gives. *)
Inductive exn : Type :=
| WebSocketDisconnect (msg : string)
| Exception (msg : string).

Definition str_exn (e : exn) : string :=
  match e with
  | WebSocketDisconnect msg => msg
  | Exception msg => msg
  end.

(** [AttributeError], as raised by [None.attr]. *)
Definition no_attribute (attr : string) : exn :=
  Exception ("'NoneType' object has no attribute '" ++ attr ++ "'").

Definition SAMPLE_RATE : Z := 16000%Z.
Definition OUTPUT_SAMPLE_RATE : Z := 24000%Z.

(** [types.Blob(data=..., mimeType=...)]; the rate is kept as a number next
    to the fixed prefix of the f-string [audio/pcm;rate={SAMPLE_RATE}]. *)
Record Blob : Type := mkBlob
  { blob_data : bytes;
    mimeType_prefix : string;
    mimeType_rate : Z }.

Record FunctionCall : Type := mkFunctionCall
  { fc_id : option string;
    fc_name : option string;
    fc_args : option json }.

(** [types.FunctionResponse(id=, name=, response={result, scheduling})]. *)
Record FunctionResponse : Type := mkFunctionResponse
  { fr_id : option string;
    fr_name : option string;
    fr_result : string;
    fr_scheduling : string }.

Record ToolCall : Type := mkToolCall
  { function_calls : option (list FunctionCall) }.

Record Transcription : Type := mkTranscription
  { transcription_text : option string }.

Record ServerContent : Type := mkServerContent
  { model_turn : bool;
    turn_complete : option bool;
    interrupted : option bool;
    input_transcription : option Transcription;
    output_transcription : option Transcription }.

(** One event of the upstream stream: a bag of optional fields, several of
    which can be populated at once. *)
Record Response : Type := mkResponse
  { tool_call : option ToolCall;
    data : option bytes;
    text : option string;
    server_content : option ServerContent }.

(** The dictionaries handed to [client_ws.send_json]. *)
Inductive ClientMsg : Type :=
| Msg_connected (message : string)
| Msg_tool_call (tool : option string) (args : option json)
| Msg_audio_response (data : string)
| Msg_transcription (text : option string)
| Msg_ai_transcription (text : option string)
| Msg_turn_complete
| Msg_interrupted
| Msg_error (message : string).

(** Awaited calls on a collaborator; each of them can raise. *)
Inductive Call : Type :=
| Ws_accept
| Ws_send_json (m : ClientMsg)
| Live_connect_aenter
| Send_realtime_input_media (media : Blob)
| Send_realtime_input_end_of_turn
| Session_send (input : json)
| Send_tool_response (function_responses : list FunctionResponse)
| Session_manager_aexit.

Inductive LogLevel : Type := DEBUG | INFO | WARNING | ERROR.

(** The trace.  A [Ev_call] entry records the call and whether it raised; a
    log entry records the level and the text of the format string at the
    log site (interpolated values are not rendered).  The last three mark
    control points of the supervisor and of [close]. *)
Inductive Event : Type :=
| Ev_call (c : Call) (raised : option exn)
| Ev_log (lvl : LogLevel) (fmt : string)
| Ev_create_task
| Ev_cancel_task
| Ev_close.

(** ** The session object and the world around it *)

Inductive AsyncSession : Type := The_session.
Inductive SessionManager : Type := The_session_manager.

(** [self.session], [self.session_manager], [self.is_active] and
    [self.receive_task], as [__init__] declares them. *)
Record GeminiSession : Type := mkGeminiSession
  { session : option AsyncSession;
    session_manager : option SessionManager;
    is_active : bool;
    receive_task : option unit }.

(** [GeminiSession.__init__]. *)
Definition init_session : GeminiSession :=
  {| session := None; session_manager := None;
     is_active := false; receive_task := None |}.

Record World : Type := mkWorld
  { self : GeminiSession;
    trace : list Event }.

Definition init_world : World := {| self := init_session; trace := [] |}.

(** The environment: given how many events happened so far and the call
    being made, does the call raise, and what. *)
Definition Env : Type := nat -> Call -> option exn.

(** ** The monad of coroutines *)

Inductive Outcome (A : Type) : Type :=
| Normal (a : A)
| Raised (e : exn).
Arguments Raised {A} e.

Definition M (A : Type) : Type := World -> Outcome A * World.

Definition ret {A} (a : A) : M A := fun w => (Normal a, w).

Definition bind {A B} (m : M A) (k : A -> M B) : M B :=
  fun w =>
    match m w with
    | (Normal a, w') => k a w'
    | (Raised e, w') => (Raised e, w')
    end.

Definition raise {A} (e : exn) : M A := fun w => (Raised e, w).

(** [try: body / except Exception as e: handler e]. *)
Definition try_except {A} (body : M A) (handler : exn -> M A) : M A :=
  fun w =>
    match body w with
    | (Normal a, w') => (Normal a, w')
    | (Raised e, w') => handler e w'
    end.

(** [try: body / finally: cleanup]. *)
Definition try_finally {A} (body : M A) (cleanup : M unit) : M A :=
  fun w =>
    match body w with
    | (r, w') =>
        match cleanup w' with
        | (Normal _, w'') => (r, w'')
        | (Raised e, w'') => (Raised e, w'')
        end
    end.

Declare Scope coro_scope.
Delimit Scope coro_scope with coro.
Notation "x <- m ;; k" := (bind m (fun x => k))
  (at level 61, m at next level, right associativity) : coro_scope.
Notation "m ;; k" := (bind m (fun _ => k))
  (at level 61, right associativity) : coro_scope.
Open Scope coro_scope.

Definition emit (ev : Event) : M unit :=
  fun w => (Normal tt, {| self := self w; trace := trace w ++ [ev] |}).

Definition log (lvl : LogLevel) (fmt : string) : M unit := emit (Ev_log lvl fmt).

Definition get_self : M GeminiSession := fun w => (Normal (self w), w).

Definition put_self (s : GeminiSession) : M unit :=
  fun w => (Normal tt, {| self := s; trace := trace w |}).

Definition set_is_active (b : bool) : M unit :=
  s <- get_self ;;
  put_self {| session := session s; session_manager := session_manager s;
              is_active := b; receive_task := receive_task s |}.

Definition set_session (v : option AsyncSession) : M unit :=
  s <- get_self ;;
  put_self {| session := v; session_manager := session_manager s;
              is_active := is_active s; receive_task := receive_task s |}.

Definition set_session_manager (v : option SessionManager) : M unit :=
  s <- get_self ;;
  put_self {| session := session s; session_manager := v;
              is_active := is_active s; receive_task := receive_task s |}.

Definition when (b : bool) (m : M unit) : M unit := if b then m else ret tt.

Section Coordinator.

(** The network, and the two codec functions of the [base64] module:
    [b64decode] answers [None] where Python raises [binascii.Error]. *)
Variable env : Env.
Variable b64decode : string -> option bytes.
Variable b64encode : bytes -> string.

(** [await c]: the call is recorded together with its outcome. *)
Definition await (c : Call) : M unit :=
  fun w =>
    let r := env (List.length (trace w)) c in
    let w' := {| self := self w; trace := trace w ++ [Ev_call c r] |} in
    match r with
    | None => (Normal tt, w')
    | Some e => (Raised e, w')
    end.

Definition send_json (m : ClientMsg) : M unit := await (Ws_send_json m).

(** *** GeminiSession.connect *)
Definition connect : M bool :=
  try_except
    (log INFO "Connecting to Gemini model: {MODEL}" ;;
     await Live_connect_aenter ;;
     set_session (Some The_session) ;;
     set_session_manager (Some The_session_manager) ;;
     log INFO "Connected to Gemini Live API" ;;
     set_is_active true ;;
     send_json (Msg_connected "Successfully connected to Gemini") ;;
     ret true)
    (fun e =>
       log ERROR "Error connecting to Gemini: {e}" ;;
       set_is_active false ;;
       raise e).

(** [base64.b64decode(audio_base64)] on whatever [data.get] returned. *)
Definition b64decode_value (v : json) : M bytes :=
  match v with
  | JStr s =>
      match b64decode s with
      | Some b => ret b
      | None => raise (Exception "Incorrect padding")
      end
  | _ => raise (Exception "argument should be a bytes-like object or ASCII string")
  end.

(** *** GeminiSession.send_audio *)
Definition send_audio (audio_base64 : json) : M unit :=
  s <- get_self ;;
  match session s with
  | Some _ =>
      if is_active s then
        try_except
          (audio_bytes <- b64decode_value audio_base64 ;;
           log DEBUG "Decoded {len(audio_bytes)} bytes of PCM audio" ;;
           await (Send_realtime_input_media
                    {| blob_data := audio_bytes;
                       mimeType_prefix := "audio/pcm;rate=";
                       mimeType_rate := SAMPLE_RATE |}) ;;
           log DEBUG "Sent {len(audio_bytes)} bytes to Gemini")
          (fun e =>
             log ERROR "Error sending audio to Gemini: {e}" ;;
             set_is_active false)
      else log WARNING "Cannot send audio - session not active"
  | None => log WARNING "Cannot send audio - session not active"
  end.

(** The body of [for fc in tool_call.function_calls], threading the list
    [function_responses] that the loop appends to. *)
Fixpoint tool_call_loop (fcs : list FunctionCall)
    (function_responses : list FunctionResponse) : M (list FunctionResponse) :=
  match fcs with
  | [] => ret function_responses
  | fc :: rest =>
      log INFO "Tool call received: {fc.name} with args: {fc.args}" ;;
      send_json (Msg_tool_call (fc_name fc) (fc_args fc)) ;;
      tool_call_loop rest
        (function_responses ++
           [{| fr_id := fc_id fc; fr_name := fc_name fc;
               fr_result := "ok"; fr_scheduling := "SILENT" |}])
  end.

(** [await self.session.<method>(...)] on a session that may still be
    [None]. *)
Definition with_session (method : string) (c : Call) : M unit :=
  s <- get_self ;;
  match session s with
  | Some _ => await c
  | None => raise (no_attribute method)
  end.

(** *** GeminiSession.handle_tool_call *)
Definition handle_tool_call (tc : ToolCall) : M unit :=
  try_except
    (match function_calls tc with
     | None => raise (Exception "'NoneType' object is not iterable")
     | Some fcs =>
         function_responses <- tool_call_loop fcs [] ;;
         with_session "send_tool_response"
           (Send_tool_response function_responses) ;;
         log INFO "Sent tool responses"
     end)
    (fun e => log ERROR "Error handling tool call: {e}").

(** *** GeminiSession.close *)
Definition close : M unit :=
  emit Ev_close ;;
  set_is_active false ;;
  s <- get_self ;;
  match session_manager s with
  | Some _ =>
      try_except
        (await Session_manager_aexit ;;
         log INFO "Closed Gemini session")
        (fun e => log ERROR "Error closing session: {e}")
  | None => ret tt
  end.

(** *** GeminiSession.receive_responses *)

Definition nonempty_bytes (d : option bytes) : option bytes :=
  match d with
  | Some (b :: l) => Some (b :: l)
  | _ => None
  end.

Definition nonempty_str (t : option string) : option string :=
  match t with
  | Some (String c s) => Some (String c s)
  | _ => None
  end.

Definition is_true (b : option bool) : bool :=
  match b with
  | Some true => true
  | _ => false
  end.

(** [response.server_content.<field>]: an [AttributeError] on [None]. *)
Definition server_content_attr (response : Response) (field : string)
    : M ServerContent :=
  match server_content response with
  | Some sc => ret sc
  | None => raise (no_attribute field)
  end.

(** The body of [async for response in turn], after the [is_active] test:
    seven independent [if]s, in the order of the source. *)
Definition process_response (response : Response) : M unit :=
  match tool_call response with
  | Some tc => handle_tool_call tc
  | None => ret tt
  end ;;
  match nonempty_bytes (data response) with
  | Some d =>
      send_json (Msg_audio_response (b64encode d)) ;;
      log INFO "Sent audio response to client ({len(response.data)} bytes)"
  | None => ret tt
  end ;;
  match nonempty_str (text response) with
  | Some t =>
      log INFO "Gemini text: {response.text}" ;;
      send_json (Msg_transcription (Some t))
  | None => ret tt
  end ;;
  sc <- server_content_attr response "input_transcription" ;;
  match input_transcription sc with
  | Some tr => send_json (Msg_transcription (transcription_text tr))
  | None => ret tt
  end ;;
  sc <- server_content_attr response "output_transcription" ;;
  match output_transcription sc with
  | Some tr => send_json (Msg_ai_transcription (transcription_text tr))
  | None => ret tt
  end ;;
  match server_content response with
  | Some sc =>
      when (model_turn sc) (log DEBUG "Model turn received") ;;
      when (is_true (turn_complete sc))
        (log INFO "Turn complete" ;; send_json Msg_turn_complete) ;;
      when (is_true (interrupted sc))
        (log INFO "Generation interrupted" ;; send_json Msg_interrupted)
  | None => ret tt
  end.

(** What the upstream stream delivers each time the coroutine is resumed:
    the next event of the current turn, the end of the turn, or an error. *)
Inductive UpItem : Type :=
| Up_yield (response : Response)
| Up_stop
| Up_raise (e : exn).

(** Where the coroutine stands: about to test [while self.is_active],
    inside [async for], or returned. *)
Inductive TaskPc : Type := At_while | In_turn | Done.

(** One step of [async for response in turn]. *)
Definition turn_item (it : UpItem) : M TaskPc :=
  match it with
  | Up_stop => ret At_while
  | Up_raise e => raise e
  | Up_yield response =>
      s <- get_self ;;
      if is_active s then process_response response ;; ret In_turn
      else ret At_while
  end.

(** [turn = self.session.receive()]: no call goes out yet, but the
    attribute is read on [self.session]. *)
Definition session_receive : M unit :=
  s <- get_self ;;
  match session s with
  | Some _ => ret tt
  | None => raise (no_attribute "receive")
  end.

(** The two nested loops, run over the items that arrive.  When the items
    run out the coroutine is suspended where it stands. *)
Fixpoint receive_loop (pc : TaskPc) (stream : list UpItem) : M TaskPc :=
  match pc with
  | Done => ret Done
  | At_while =>
      s <- get_self ;;
      if is_active s then
        session_receive ;;
        match stream with
        | [] => ret In_turn
        | it :: rest => pc' <- turn_item it ;; receive_loop pc' rest
        end
      else ret Done
  | In_turn =>
      match stream with
      | [] => ret In_turn
      | it :: rest => pc' <- turn_item it ;; receive_loop pc' rest
      end
  end.

Definition receive_responses_from (pc : TaskPc) (stream : list UpItem) : M TaskPc :=
  try_except
    (receive_loop pc stream)
    (fun e =>
       log ERROR "Error receiving from Gemini: {e}" ;;
       set_is_active false ;;
       ret Done).

Definition receive_responses (stream : list UpItem) : M TaskPc :=
  receive_responses_from At_while stream.

(** ** websocket_endpoint *)

(** What one [await websocket.receive_text()] followed by [json.loads]
    gives: an exception of the transport, or the text with its parse
    ([None] where [json.loads] raises). *)
Inductive Inbound : Type :=
| Recv_raises (e : exn)
| Recv_text (parsed : option json).

Inductive LoopCtl : Type := Continue | Break.

Definition client_gone : exn := WebSocketDisconnect "1000".

(** [data.get(k, default)]; anything but a dict has no [get]. *)
Definition dict_get (d : json) (k : string) (default : json) : M json :=
  match d with
  | JObj kv =>
      ret (match assoc k kv with Some v => v | None => default end)
  | _ => raise (Exception "object has no attribute 'get'")
  end.

(** [len(v)], evaluated inside the f-string of the debug line. *)
Definition py_len (v : json) : M nat :=
  match v with
  | JStr s => ret (String.length s)
  | JArr l => ret (List.length l)
  | JObj kv => ret (List.length kv)
  | _ => raise (Exception "object has no len()")
  end.

(** The [if]/[elif] chain on [data.get("type")]. *)
Definition process_client_message (parsed : option json) : M LoopCtl :=
  match parsed with
  | None => raise (Exception "JSONDecodeError")
  | Some data =>
      ty <- dict_get data "type" JNull ;;
      if eq_str ty "audio_chunk" then
        audio_base64 <- dict_get data "data" JNull ;;
        (if truthy audio_base64 then
           _ <- py_len audio_base64 ;;
           log DEBUG "Received audio chunk: {len(audio_base64)} bytes" ;;
           send_audio audio_base64
         else ret tt) ;;
        ret Continue
      else if eq_str ty "end_of_turn" then
        log INFO "User finished speaking - sending realtime end signal to Gemini" ;;
        s <- get_self ;;
        match session s with
        | Some _ =>
            try_except
              (await Send_realtime_input_end_of_turn ;;
               log INFO "Sent realtime end_of_turn signal to Gemini successfully")
              (fun e => log ERROR "Error sending end_of_turn: {e}")
        | None => ret tt
        end ;;
        ret Continue
      else if eq_str ty "text_message" then
        text <- dict_get data "text" (JStr "") ;;
        (if truthy text then
           log INFO "Received text message: {text}" ;;
           with_session "send" (Session_send text)
         else ret tt) ;;
        ret Continue
      else if eq_str ty "stop" then
        log INFO "Client requested stop" ;;
        ret Break
      else ret Continue
  end.

(** The [try] inside the [while] loop, with its two handlers. *)
Definition inbound_iteration (inb : Inbound) : M LoopCtl :=
  try_except
    (match inb with
     | Recv_raises e => raise e
     | Recv_text parsed => process_client_message parsed
     end)
    (fun e =>
       match e with
       | WebSocketDisconnect _ => log INFO "Client disconnected" ;; ret Break
       | Exception _ =>
           log ERROR "Error processing client message: {e}" ;; ret Break
       end).

(** [while session.is_active].  Each entry of the script pairs the items
    the background coroutine consumes while the endpoint is suspended in
    [receive_text] with what [receive_text] then returns; a script that
    runs out is a client that went away: [receive_text] raises
    [client_gone]. *)
Fixpoint inbound_loop (task : TaskPc) (script : list (list UpItem * Inbound))
    : M TaskPc :=
  s <- get_self ;;
  if is_active s then
    match script with
    | [] =>
        _ <- inbound_iteration (Recv_raises client_gone) ;;
        ret task
    | (arrived, inb) :: rest =>
        task' <- receive_responses_from task arrived ;;
        ctl <- inbound_iteration inb ;;
        match ctl with
        | Continue => inbound_loop task' rest
        | Break => ret task'
        end
    end
  else ret task.

(** [await receive_task] after [cancel()]: the coroutine either returned
    already or ends with [CancelledError], which is passed over. *)
Definition cancel_and_await (task : TaskPc) : M unit :=
  emit Ev_cancel_task.

Definition websocket_endpoint (script : list (list UpItem * Inbound)) : M unit :=
  await Ws_accept ;;
  log INFO "WebSocket connection established from {client_address}" ;;
  put_self init_session ;;
  try_finally
    (try_except
       (_ <- connect ;;
        emit Ev_create_task ;;
        task <- inbound_loop At_while script ;;
        cancel_and_await task)
       (fun e =>
          log ERROR "WebSocket error: {e}" ;;
          try_except
            (send_json (Msg_error (str_exn e)))
            (fun _ => ret tt)))
    (close ;;
     log INFO "WebSocket connection closed").

End Coordinator.

(** ** Views of a trace *)

(** The messages handed to [send_json], in order, delivered or not. *)
Fixpoint ws_sent (tr : list Event) : list ClientMsg :=
  match tr with
  | [] => []
  | Ev_call (Ws_send_json m) _ :: rest => m :: ws_sent rest
  | _ :: rest => ws_sent rest
  end.

(** The messages whose [send_json] returned: what the client received. *)
Fixpoint ws_delivered (tr : list Event) : list ClientMsg :=
  match tr with
  | [] => []
  | Ev_call (Ws_send_json m) None :: rest => m :: ws_delivered rest
  | _ :: rest => ws_delivered rest
  end.

Definition is_upstream_call (c : Call) : bool :=
  match c with
  | Send_realtime_input_media _ | Send_realtime_input_end_of_turn
  | Session_send _ | Send_tool_response _ => true
  | _ => false
  end.

(** The calls made on the upstream session, in order. *)
Fixpoint upstream_calls (tr : list Event) : list Call :=
  match tr with
  | [] => []
  | Ev_call c _ :: rest =>
      if is_upstream_call c then c :: upstream_calls rest
      else upstream_calls rest
  | _ :: rest => upstream_calls rest
  end.

Definition is_release (ev : Event) : bool :=
  match ev with
  | Ev_call Session_manager_aexit _ => true
  | _ => false
  end.

Definition is_close (ev : Event) : bool :=
  match ev with Ev_close => true | _ => false end.

Definition is_cancel (ev : Event) : bool :=
  match ev with Ev_cancel_task => true | _ => false end.

Definition is_create (ev : Event) : bool :=
  match ev with Ev_create_task => true | _ => false end.

Definition is_log (ev : Event) : bool :=
  match ev with Ev_log _ _ => true | _ => false end.

Definition count (p : Event -> bool) (tr : list Event) : nat :=
  List.length (List.filter p tr).

(** The number of times the upstream handle was released. *)
Definition releases (tr : list Event) : nat := count is_release tr.

(** Python's test [if self.attr:] on an attribute that is an object or [None]. *)
Definition is_set {A} (o : option A) : bool :=
  match o with Some _ => true | None => false end.

Arguments count : simpl never.
Arguments releases : simpl never.

(** Every [send_json] of this network returns. *)
Definition ws_ok (env : Env) : Prop :=
  forall n m, env n (Ws_send_json m) = None.

(** The network on which nothing ever fails. *)
Definition env_ok : Env := fun _ _ => None.

(** ** The translation table of the outbound relay, as the design states it

    Each populated field of an event gives its messages, independently of
    the others, and the messages follow the fixed order tool-call,
    audio-data, text, input-transcript, output-transcript, turn-complete,
    interrupted. *)

Definition tool_call_messages (r : Response) : list ClientMsg :=
  match tool_call r with
  | Some {| function_calls := Some fcs |} =>
      List.map (fun fc => Msg_tool_call (fc_name fc) (fc_args fc)) fcs
  | _ => []
  end.

Definition audio_messages (b64encode : bytes -> string) (r : Response)
    : list ClientMsg :=
  match data r with
  | Some (b :: l) => [Msg_audio_response (b64encode (b :: l))]
  | _ => []
  end.

Definition text_messages (r : Response) : list ClientMsg :=
  match text r with
  | Some (String c s) => [Msg_transcription (Some (String c s))]
  | _ => []
  end.

Definition input_transcript_messages (r : Response) : list ClientMsg :=
  match server_content r with
  | Some sc =>
      match input_transcription sc with
      | Some tr => [Msg_transcription (transcription_text tr)]
      | None => []
      end
  | None => []
  end.

Definition output_transcript_messages (r : Response) : list ClientMsg :=
  match server_content r with
  | Some sc =>
      match output_transcription sc with
      | Some tr => [Msg_ai_transcription (transcription_text tr)]
      | None => []
      end
  | None => []
  end.

Definition turn_complete_messages (r : Response) : list ClientMsg :=
  match server_content r with
  | Some sc =>
      match turn_complete sc with
      | Some true => [Msg_turn_complete]
      | _ => []
      end
  | None => []
  end.

Definition interrupted_messages (r : Response) : list ClientMsg :=
  match server_content r with
  | Some sc =>
      match interrupted sc with
      | Some true => [Msg_interrupted]
      | _ => []
      end
  | None => []
  end.

Definition translation_table (b64encode : bytes -> string) (r : Response)
    : list ClientMsg :=
  tool_call_messages r ++ audio_messages b64encode r ++ text_messages r
  ++ input_transcript_messages r ++ output_transcript_messages r
  ++ turn_complete_messages r ++ interrupted_messages r.

(** The entry of the grouped reply that answers one request. *)
Definition response_for (fc : FunctionCall) : FunctionResponse :=
  {| fr_id := fc_id fc; fr_name := fc_name fc;
     fr_result := "ok"; fr_scheduling := "SILENT" |}.

(** ** A standard base64 codec, to run the relay on concrete payloads *)

Module Base64.

Definition index (c : ascii) : option N :=
  let n := N_of_ascii c in
  if (65 <=? n)%N && (n <=? 90)%N then Some (n - 65)%N
  else if (97 <=? n)%N && (n <=? 122)%N then Some (n - 71)%N
  else if (48 <=? n)%N && (n <=? 57)%N then Some (n + 4)%N
  else if (n =? 43)%N then Some 62%N
  else if (n =? 47)%N then Some 63%N
  else None.

Definition letter (n : N) : ascii :=
  if (n <? 26)%N then ascii_of_N (n + 65)
  else if (n <? 52)%N then ascii_of_N (n + 71)
  else if (n <? 62)%N then ascii_of_N (n - 4)
  else if (n =? 62)%N then "+"%char
  else "/"%char.

Definition byte_of (n : N) : list byte :=
  match Byte.of_N (n mod 256) with
  | Some b => [b]
  | None => []
  end.

Fixpoint decode_quads (l : list ascii) : option bytes :=
  match l with
  | [] => Some []
  | a :: b :: c :: d :: rest =>
      match index a, index b with
      | Some x, Some y =>
          let b1 := byte_of (x * 4 + y / 16) in
          if Ascii.eqb d "=" && Nat.eqb (List.length rest) 0 then
            if Ascii.eqb c "=" then Some b1
            else
              match index c with
              | Some z => Some (b1 ++ byte_of (y * 16 + z / 4))
              | None => None
              end
          else
            match index c, index d, decode_quads rest with
            | Some z, Some u, Some bs =>
                Some (b1 ++ byte_of (y * 16 + z / 4)
                         ++ byte_of (z * 64 + u) ++ bs)
            | _, _, _ => None
            end
      | _, _ => None
      end
  | _ => None
  end.

Definition b64decode (s : string) : option bytes :=
  decode_quads (list_ascii_of_string s).

Fixpoint encode_triples (l : list N) : list ascii :=
  match l with
  | [] => []
  | [x] => [letter (x / 4); letter (x mod 4 * 16); "="; "="]%char
  | [x; y] =>
      [letter (x / 4); letter (x mod 4 * 16 + y / 16);
       letter (y mod 16 * 4); "="]%char
  | x :: y :: z :: rest =>
      letter (x / 4) :: letter (x mod 4 * 16 + y / 16)
      :: letter (y mod 16 * 4 + z / 64) :: letter (z mod 64)
      :: encode_triples rest
  end%N.

Definition b64encode (b : bytes) : string :=
  string_of_list_ascii (encode_triples (List.map Byte.to_N b)).

End Base64.

(** ** Sequences of operations on one session *)

(** [send_audio] called on each chunk of a sequence, one after the other. *)
Fixpoint send_audio_all (env : Env) (b64decode : string -> option bytes)
    (chunks : list json) : M unit :=
  match chunks with
  | [] => ret tt
  | chunk :: rest =>
      send_audio env b64decode chunk ;; send_audio_all env b64decode rest
  end.

(** The operations the supervisor and the two loops perform on a session
    once [connect] has been called. *)
Inductive SessionOp : Type :=
| Op_send_audio (audio_base64 : json)
| Op_handle_tool_call (tc : ToolCall)
| Op_receive_responses (pc : TaskPc) (stream : list UpItem)
| Op_client_message (inb : Inbound)
| Op_close.

Section Operations.

Variable env : Env.
Variable b64decode : string -> option bytes.
Variable b64encode : bytes -> string.

(** The world after one operation, whether it returned or raised. *)
Definition run_op (op : SessionOp) (w : World) : World :=
  match op with
  | Op_send_audio v => snd (send_audio env b64decode v w)
  | Op_handle_tool_call tc => snd (handle_tool_call env tc w)
  | Op_receive_responses pc stream =>
      snd (receive_responses_from env b64encode pc stream w)
  | Op_client_message inb => snd (inbound_iteration env b64decode inb w)
  | Op_close => snd (close env w)
  end.

Definition run_ops (ops : list SessionOp) (w : World) : World :=
  List.fold_left (fun w op => run_op op w) ops w.

End Operations.

(** ** Names for what the statements talk about *)

Definition not_active_warning : Event :=
  Ev_log WARNING "Cannot send audio - session not active".

(** The frame that [send_audio] builds from decoded bytes. *)
Definition pcm_frame (audio_bytes : bytes) : Blob :=
  {| blob_data := audio_bytes;
     mimeType_prefix := "audio/pcm;rate=";
     mimeType_rate := SAMPLE_RATE |}.

Definition notification_for (fc : FunctionCall) : ClientMsg :=
  Msg_tool_call (fc_name fc) (fc_args fc).

(** What a batch leaves in the trace when every notification goes out. *)
Fixpoint tool_call_events (fcs : list FunctionCall) : list Event :=
  match fcs with
  | [] => []
  | fc :: rest =>
      Ev_log INFO "Tool call received: {fc.name} with args: {fc.args}"
      :: Ev_call (Ws_send_json (notification_for fc)) None
      :: tool_call_events rest
  end.

Definition tool_call_error : Event :=
  Ev_log ERROR "Error handling tool call: {e}".

Definition has_raised (ev : Event) : bool :=
  match ev with
  | Ev_call _ (Some _) => true
  | _ => false
  end.

(** [sends m msgs]: from any world, [m] hands exactly [msgs] to
    [send_json], in that order, and all of them are delivered. *)
Definition sends {A} (m : M A) (msgs : list ClientMsg) : Prop :=
  forall w,
    ws_sent (trace (snd (m w))) = ws_sent (trace w) ++ msgs
    /\ ws_delivered (trace (snd (m w))) = ws_delivered (trace w) ++ msgs.

Definition returns {A} (m : M A) : Prop :=
  forall w, exists a, fst (m w) = Normal a.

Definition raises {A} (m : M A) : Prop :=
  forall w, exists e, fst (m w) = Raised e.

Definition raises_with {A} (e : exn) (m : M A) : Prop :=
  forall w, fst (m w) = Raised e.

(** The notifications of a batch, whether or not the batch is iterable. *)
Definition batch_messages (tc : ToolCall) : list ClientMsg :=
  match function_calls tc with
  | Some fcs => List.map notification_for fcs
  | None => []
  end.

(** [emits_only P m]: whatever [m] adds to the trace satisfies [P]. *)
Definition emits_only (P : Event -> bool) {A} (m : M A) : Prop :=
  forall w, exists new,
    trace (snd (m w)) = trace w ++ new /\ List.forallb P new = true.

(** [preserves I m]: [m] keeps the property [I] of the session object. *)
Definition preserves (I : GeminiSession -> Prop) {A} (m : M A) : Prop :=
  forall w, I (self w) -> I (self (snd (m w))).

(** Events other than the three control points of the supervisor. *)
Definition no_marker (ev : Event) : bool :=
  negb (is_close ev || is_cancel ev || is_create ev).

Definition inactive (s : GeminiSession) : Prop := is_active s = false.

Definition connected_if_active (s : GeminiSession) : Prop :=
  is_active s = true -> session s = Some The_session.

Definition is_cleanup (ev : Event) : bool := is_release ev || is_log ev.

Definition connected_ack : ClientMsg :=
  Msg_connected "Successfully connected to Gemini".

Definition deactivated (s : GeminiSession) : GeminiSession :=
  {| session := session s; session_manager := session_manager s;
     is_active := false; receive_task := receive_task s |}.

(** The trace of the two last tests of [process_response]. *)
Definition is_turn_end_handling (ev : Event) : bool :=
  match ev with
  | Ev_call (Ws_send_json Msg_turn_complete) _ => true
  | Ev_call (Ws_send_json Msg_interrupted) _ => true
  | Ev_log _ fmt =>
      String.eqb fmt "Turn complete" || String.eqb fmt "Generation interrupted"
  | _ => false
  end.

Definition before_turn_end (ev : Event) : bool := negb (is_turn_end_handling ev).

Definition receive_error : Event :=
  Ev_log ERROR "Error receiving from Gemini: {e}".

Definition attribute_error : exn := no_attribute "input_transcription".

(** ** Module start-up and the health endpoint *)

(** The top of the module: [GOOGLE_API_KEY = os.getenv("GOOGLE_API_KEY")],
    then the test [if not GOOGLE_API_KEY] that refuses to go on. *)
Definition load_api_key (getenv : option string) : M string :=
  match getenv with
  | Some (String c s) => ret (String c s)
  | _ =>
      log ERROR "GOOGLE_API_KEY not set. API calls will fail." ;;
      raise (Exception "GOOGLE_API_KEY is required")
  end.

(** The dictionary that [health_check] returns; the clock is an input. *)
Record Health : Type := mkHealth
  { health_status : string;
    api_key_configured : bool;
    timestamp : string }.

Definition health_check (GOOGLE_API_KEY : string) (now_isoformat : string)
    : Health :=
  {| health_status := "healthy";
     api_key_configured := negb (String.eqb GOOGLE_API_KEY "");
     timestamp := now_isoformat |}.

(** ** More names for statements *)

(** [json.loads] gave a dict. *)
Definition is_object (v : json) : bool :=
  match v with JObj _ => true | _ => false end.

Definition audio_chunk_message (payload : string) : json :=
  JObj [("type", JStr "audio_chunk"); ("data", JStr payload)].

(** An item the outbound coroutine can consume without an exception: the
    end of a turn, or an event that has its [server_content]. *)
Definition readable (it : UpItem) : bool :=
  match it with
  | Up_yield r => is_set (server_content r)
  | Up_stop => true
  | Up_raise _ => false
  end.

Definition item_messages (b64encode : bytes -> string) (it : UpItem)
    : list ClientMsg :=
  match it with
  | Up_yield r => translation_table b64encode r
  | _ => []
  end.

(** The upstream session was opened. *)
Definition is_open (ev : Event) : bool :=
  match ev with
  | Ev_call Live_connect_aenter None => true
  | _ => false
  end.

(** Events that neither open nor release the upstream handle. *)
Definition keeps_handle (ev : Event) : bool :=
  negb (is_open ev || is_release ev).

(** The line that the inbound loop logs when an iteration ends it with
    the exception [e]. *)
Definition break_log (e : exn) : Event :=
  match e with
  | WebSocketDisconnect _ => Ev_log INFO "Client disconnected"
  | Exception _ => Ev_log ERROR "Error processing client message: {e}"
  end.

(** Both handles that [connect] stores are in place. *)
Definition handles_set (s : GeminiSession) : Prop :=
  session s = Some The_session
  /\ session_manager s = Some The_session_manager.

(** Events that are not a message to the client. *)
Definition not_to_client (ev : Event) : bool :=
  match ev with
  | Ev_call (Ws_send_json _) _ => false
  | _ => true
  end.

(** Events that are not a call on the upstream session, the grouped tool
    reply apart. *)
Definition at_most_tool_reply (ev : Event) : bool :=
  match ev with
  | Ev_call (Send_tool_response _) _ => true
  | Ev_call c _ => negb (is_upstream_call c)
  | _ => true
  end.

Definition is_tool_reply (c : Call) : bool :=
  match c with Send_tool_response _ => true | _ => false end.

(** ** Every method of the session, [connect] included *)

Inductive SessionMethod : Type :=
| Method_connect
| Method_other (op : SessionOp).

Definition is_not_connect (m : SessionMethod) : bool :=
  match m with
  | Method_connect => false
  | Method_other _ => true
  end.

(** The world after one call of a method, whether it returned or raised. *)
Definition run_method (env : Env) (b64decode : string -> option bytes)
    (b64encode : bytes -> string) (m : SessionMethod) (w : World) : World :=
  match m with
  | Method_connect => snd (connect env w)
  | Method_other op => run_op env b64decode b64encode op w
  end.

Definition run_methods (env : Env) (b64decode : string -> option bytes)
    (b64encode : bytes -> string) (ms : list SessionMethod) (w : World)
    : World :=
  List.fold_left (fun w m => run_method env b64decode b64encode m w) ms w.

(** The audio frames among the calls made on the upstream session. *)
Definition frames_of (calls : list Call) : list Blob :=
  List.flat_map
    (fun c => match c with
              | Send_realtime_input_media blob => [blob]
              | _ => []
              end)
    calls.

Unset Implicit Arguments.

Example base64_decode_hello :
  Base64.b64decode "aGVsbG8=" = Some ["h"; "e"; "l"; "l"; "o"]%byte.
Proof. reflexivity. Qed.

Example base64_encode_hello :
  Base64.b64encode ["h"; "e"; "l"; "l"; "o"]%byte = "aGVsbG8=".
Proof. reflexivity. Qed.

Example base64_decode_empty : Base64.b64decode "" = Some [].
Proof. reflexivity. Qed.

(** A whole connection on a network where nothing fails: the upstream
    speaks while the endpoint waits for the first message, the client
    sends one chunk of audio and then asks to stop. *)
Example one_connection_trace :
  let spoken :=
    {| tool_call := None; data := Some ["h"; "i"]%byte; text := None;
       server_content :=
         Some {| model_turn := true; turn_complete := Some true;
                 interrupted := None; input_transcription := None;
                 output_transcription := None |} |} in
  trace (snd (websocket_endpoint env_ok Base64.b64decode Base64.b64encode
    [([Up_yield spoken; Up_stop],
      Recv_text (Some (JObj [("type", JStr "audio_chunk");
                             ("data", JStr "aGVsbG8=")])));
     ([], Recv_text (Some (JObj [("type", JStr "stop")])))]
    init_world))
  = [Ev_call Ws_accept None;
     Ev_log INFO "WebSocket connection established from {client_address}";
     Ev_log INFO "Connecting to Gemini model: {MODEL}";
     Ev_call Live_connect_aenter None;
     Ev_log INFO "Connected to Gemini Live API";
     Ev_call (Ws_send_json connected_ack) None;
     Ev_create_task;
     Ev_call (Ws_send_json (Msg_audio_response "aGk=")) None;
     Ev_log INFO "Sent audio response to client ({len(response.data)} bytes)";
     Ev_log DEBUG "Model turn received";
     Ev_log INFO "Turn complete";
     Ev_call (Ws_send_json Msg_turn_complete) None;
     Ev_log DEBUG "Received audio chunk: {len(audio_base64)} bytes";
     Ev_log DEBUG "Decoded {len(audio_bytes)} bytes of PCM audio";
     Ev_call (Send_realtime_input_media (pcm_frame ["h"; "e"; "l"; "l"; "o"]%byte))
       None;
     Ev_log DEBUG "Sent {len(audio_bytes)} bytes to Gemini";
     Ev_log INFO "Client requested stop";
     Ev_cancel_task;
     Ev_close;
     Ev_call Session_manager_aexit None;
     Ev_log INFO "Closed Gemini session";
     Ev_log INFO "WebSocket connection closed"].
Proof. vm_compute. reflexivity. Qed.

(** ** Basic facts about traces and the monad *)

Lemma count_app (p : Event -> bool) (l1 l2 : list Event) :
  count p (l1 ++ l2) = count p l1 + count p l2.
Proof. unfold count. now rewrite filter_app, length_app. Qed.

Lemma count_cons (p : Event -> bool) (ev : Event) (l : list Event) :
  count p (ev :: l) = (if p ev then 1 else 0) + count p l.
Proof. unfold count. cbn. now destruct (p ev). Qed.

Lemma count_nil (p : Event -> bool) : count p [] = 0.
Proof. reflexivity. Qed.

Ltac count_events :=
  unfold releases;
  repeat (progress (rewrite ?count_app, ?count_cons, ?count_nil));
  cbn; try lia.

Lemma ws_sent_app (l1 l2 : list Event) :
  ws_sent (l1 ++ l2) = ws_sent l1 ++ ws_sent l2.
Proof.
  induction l1 as [|ev l1 IH]; [reflexivity|].
  destruct ev as [c r| | | |]; cbn; try exact IH.
  destruct c; cbn; try exact IH. now rewrite IH.
Qed.

Lemma ws_delivered_app (l1 l2 : list Event) :
  ws_delivered (l1 ++ l2) = ws_delivered l1 ++ ws_delivered l2.
Proof.
  induction l1 as [|ev l1 IH]; [reflexivity|].
  destruct ev as [c r| | | |]; cbn; try exact IH.
  destruct c; cbn; try exact IH. destruct r; cbn; [exact IH | now rewrite IH].
Qed.

Lemma upstream_calls_app (l1 l2 : list Event) :
  upstream_calls (l1 ++ l2) = upstream_calls l1 ++ upstream_calls l2.
Proof.
  induction l1 as [|ev l1 IH]; [reflexivity|].
  destruct ev as [c r| | | |]; cbn; try exact IH.
  destruct (is_upstream_call c); cbn; [now rewrite IH | exact IH].
Qed.

Arguments connect : simpl never.
Arguments send_audio : simpl never.
Arguments handle_tool_call : simpl never.
Arguments close : simpl never.
Arguments process_response : simpl never.
Arguments receive_responses_from : simpl never.
Arguments inbound_iteration : simpl never.
Arguments turn_item : simpl never.

(** Unfolding the monad, and the methods on top of it. *)
Ltac coro_core :=
  unfold with_session, b64decode_value, server_content_attr, send_json,
    await, log, emit, set_is_active, set_session, set_session_manager,
    get_self, put_self, when, try_except, try_finally, bind, ret, raise;
  cbn.

Ltac coro := unfold close, send_audio, handle_tool_call; coro_core.

(** ** close *)




(** ** send_audio *)

(** The precondition check of [send_audio]: one warning, nothing else. *)
Lemma send_audio_inactive (env : Env) (b64decode : string -> option bytes)
    (chunk : json) (w : World) :
  session (self w) = None \/ is_active (self w) = false ->
  send_audio env b64decode chunk w
  = (Normal tt, {| self := self w; trace := trace w ++ [not_active_warning] |}).
Proof.
  intros H. coro.
  destruct (session (self w)) as [s|]; [|reflexivity].
  destruct H as [H|H]; [discriminate|]. now rewrite H.
Qed.

(** C4: while there is no upstream session or the session is not active,
    a whole sequence of audio chunks goes through [send_audio] without a
    single call on the upstream client: every call returns normally, logs
    one warning, and the session object is left as it was. *)
Theorem send_audio_inactive_forwards_nothing (env : Env)
    (b64decode : string -> option bytes) (chunks : list json) (w : World) :
  session (self w) = None \/ is_active (self w) = false ->
  let r := send_audio_all env b64decode chunks w in
  fst r = Normal tt
  /\ self (snd r) = self w
  /\ upstream_calls (trace (snd r)) = upstream_calls (trace w)
  /\ trace (snd r) = trace w ++ List.map (fun _ => not_active_warning) chunks.
Proof.
  revert w. induction chunks as [|chunk rest IH]; intros w H; cbn.
  - now rewrite app_nil_r.
  - unfold bind. rewrite (send_audio_inactive env b64decode chunk w H).
    set (w1 := {| self := self w; trace := trace w ++ [not_active_warning] |}).
    destruct (IH w1 H) as (R & S & U & T).
    repeat split; [exact R | exact S | | ].
    + rewrite U. unfold w1; cbn. rewrite upstream_calls_app; cbn.
      now rewrite app_nil_r.
    + rewrite T. unfold w1; cbn. now rewrite <- app_assoc.
Qed.

Lemma send_audio_inactive_forwards_nothing_witness :
  let w := snd (close env_ok (snd (connect env_ok init_world))) in
  let r := send_audio_all env_ok Base64.b64decode
             [JStr "aGVsbG8="; JStr "AAAA"] w in
  is_active (self w) = false
  /\ fst r = Normal tt
  /\ self (snd r) = self w
  /\ upstream_calls (trace (snd r)) = upstream_calls (trace w).
Proof.
  intros w r.
  assert (H : session (self w) = None \/ is_active (self w) = false)
    by (right; reflexivity).
  destruct (send_audio_inactive_forwards_nothing env_ok Base64.b64decode
              [JStr "aGVsbG8="; JStr "AAAA"] w H) as (R & S & U & _).
  repeat split; assumption.
Defined.

(** On an active session [send_audio] makes exactly one upstream call, the
    realtime frame holding the decoded bytes, whatever the call answers. *)
Lemma send_audio_active (env : Env) (b64decode : string -> option bytes)
    (payload : string) (audio_bytes : bytes) (w : World) :
  session (self w) = Some The_session ->
  is_active (self w) = true ->
  b64decode payload = Some audio_bytes ->
  let r := send_audio env b64decode (JStr payload) w in
  fst r = Normal tt
  /\ upstream_calls (trace (snd r))
     = upstream_calls (trace w) ++ [Send_realtime_input_media (pcm_frame audio_bytes)]
  /\ (env (S (List.length (trace w)))
          (Send_realtime_input_media (pcm_frame audio_bytes)) = None ->
      self (snd r) = self w).
Proof.
  intros Hs Ha Hd. coro. rewrite Hs, Ha, Hd; cbn.
  rewrite length_app; cbn. rewrite Nat.add_1_r.
  fold (pcm_frame audio_bytes).
  destruct (env (S (List.length (trace w))) _) as [e|]; cbn;
    (repeat split; try reflexivity; try discriminate);
    rewrite !upstream_calls_app; cbn; now rewrite !app_nil_r.
Qed.

Ltac inbound :=
  unfold inbound_iteration, process_client_message, dict_get, py_len; coro.

(** C3: the two send failures are treated differently.  When the upstream
    call of [send_audio] raises, [send_audio] logs the error, returns, and
    leaves the session inactive, so that the next chunk is dropped without
    an upstream call.  When the end-of-turn signal raises, the inbound
    iteration logs the error and nothing else: the session object is
    unchanged and the loop is told to continue. *)
Theorem send_failures_audio_deactivates_end_of_turn_does_not
    (env : Env) (b64decode : string -> option bytes) (w : World)
    (payload : string) (audio_bytes : bytes) (next_chunk : json)
    (kv : list (string * json)) (e : exn) :
  session (self w) = Some The_session ->
  is_active (self w) = true ->
  (b64decode payload = Some audio_bytes ->
   (forall n, env n (Send_realtime_input_media (pcm_frame audio_bytes)) = Some e) ->
   let r := send_audio env b64decode (JStr payload) w in
   let r' := send_audio env b64decode next_chunk (snd r) in
   fst r = Normal tt
   /\ is_active (self (snd r)) = false
   /\ trace (snd r)
      = trace w ++
        [Ev_log DEBUG "Decoded {len(audio_bytes)} bytes of PCM audio";
         Ev_call (Send_realtime_input_media (pcm_frame audio_bytes)) (Some e);
         Ev_log ERROR "Error sending audio to Gemini: {e}"]
   /\ upstream_calls (trace (snd r')) = upstream_calls (trace (snd r)))
  /\
  (assoc "type" kv = Some (JStr "end_of_turn") ->
   (forall n, env n Send_realtime_input_end_of_turn = Some e) ->
   inbound_iteration env b64decode (Recv_text (Some (JObj kv))) w
   = (Normal Continue,
      {| self := self w;
         trace := trace w ++
           [Ev_log INFO "User finished speaking - sending realtime end signal to Gemini";
            Ev_call Send_realtime_input_end_of_turn (Some e);
            Ev_log ERROR "Error sending end_of_turn: {e}"] |})).
Proof.
  intros Hs Ha. split.
  - intros Hd Hfail r r'.
    assert (Er : r = (Normal tt,
               {| self := {| session := session (self w);
                             session_manager := session_manager (self w);
                             is_active := false;
                             receive_task := receive_task (self w) |};
                  trace := trace w ++
                    [Ev_log DEBUG "Decoded {len(audio_bytes)} bytes of PCM audio";
                     Ev_call (Send_realtime_input_media (pcm_frame audio_bytes)) (Some e);
                     Ev_log ERROR "Error sending audio to Gemini: {e}"] |})).
    { unfold r. coro. rewrite Hs, Ha, Hd; cbn.
      fold (pcm_frame audio_bytes). rewrite Hfail; cbn.
      now rewrite Hs, <- !app_assoc. }
    unfold r'. rewrite Er. cbn [fst snd self trace is_active].
    do 3 (split; [reflexivity|]).
    rewrite send_audio_inactive by (right; reflexivity).
    cbn [snd trace].
    rewrite (upstream_calls_app _ [not_active_warning]); cbn.
    now rewrite app_nil_r.
  - intros Hty Hfail. inbound. rewrite Hty; cbn. rewrite Hs; cbn.
    rewrite Hfail; cbn. now rewrite <- !app_assoc.
Qed.

Lemma send_failures_witness :
  let env : Env := fun _ c =>
    match c with
    | Send_realtime_input_media _ | Send_realtime_input_end_of_turn =>
        Some (Exception "connection reset")
    | _ => None
    end in
  let w := snd (connect env init_world) in
  let r := send_audio env Base64.b64decode (JStr "aGVsbG8=") w in
  is_active (self w) = true
  /\ is_active (self (snd r)) = false
  /\ fst (inbound_iteration env Base64.b64decode
            (Recv_text (Some (JObj [("type", JStr "end_of_turn")]))) w)
     = Normal Continue.
Proof.
  intros env w r.
  destruct (send_failures_audio_deactivates_end_of_turn_does_not
              env Base64.b64decode w "aGVsbG8=" ["h"; "e"; "l"; "l"; "o"]%byte
              (JStr "AAAA") [("type", JStr "end_of_turn")]
              (Exception "connection reset") eq_refl eq_refl) as [A B].
  destruct (A eq_refl (fun _ => eq_refl)) as (_ & A2 & _).
  split; [reflexivity|]. split; [exact A2|].
  now rewrite (B eq_refl (fun _ => eq_refl)).
Defined.

(** C8, as the code has it: an [audio_chunk] message whose payload is a
    non-empty string of valid base64, received while the session is
    active, makes the endpoint forward exactly one realtime frame: it
    holds the decoded bytes (so its length is theirs) and is tagged with
    the input rate of 16000 Hz.  The endpoint tests the payload for
    truth before it calls [send_audio], so an empty payload is dropped
    there and forwards nothing. *)
Theorem audio_chunk_forwards_one_frame
    (env : Env) (b64decode : string -> option bytes) (w : World)
    (kv : list (string * json)) (payload : string) (audio_bytes : bytes) :
  assoc "type" kv = Some (JStr "audio_chunk") ->
  assoc "data" kv = Some (JStr payload) ->
  b64decode payload = Some audio_bytes ->
  session (self w) = Some The_session ->
  is_active (self w) = true ->
  let r := inbound_iteration env b64decode (Recv_text (Some (JObj kv))) w in
  fst r = Normal Continue
  /\ (payload <> "" ->
      exists frame,
        upstream_calls (trace (snd r))
        = upstream_calls (trace w) ++ [Send_realtime_input_media frame]
        /\ blob_data frame = audio_bytes
        /\ List.length (blob_data frame) = List.length audio_bytes
        /\ mimeType_prefix frame = "audio/pcm;rate="
        /\ mimeType_rate frame = 16000%Z)
  /\ (payload = "" -> snd r = w).
Proof.
  intros Hty Hdata Hd Hs Ha r.
  destruct payload as [|c payload].
  - unfold r. inbound. rewrite Hty; cbn. rewrite Hdata; cbn.
    split; [reflexivity|]. split; [congruence|]. now destruct w.
  - assert (Hw : forall t, session (self {| self := self w; trace := t |})
                           = Some The_session) by (intros; exact Hs).
    pose proof (send_audio_active env b64decode (String c payload) audio_bytes
                  {| self := self w;
                     trace := trace w ++
                       [Ev_log DEBUG "Received audio chunk: {len(audio_base64)} bytes"] |}
                  (Hw _) Ha Hd) as (R & U & _).
    unfold r, inbound_iteration, process_client_message, dict_get, py_len.
    coro_core. rewrite Hty; cbn. rewrite Hdata; cbn.
    destruct (send_audio env b64decode (JStr (String c payload)) _) as [o w'].
    cbn in R, U. subst o. cbn.
    split; [reflexivity|]. split; [|discriminate].
    intros _. exists (pcm_frame audio_bytes).
    rewrite U, upstream_calls_app; cbn. rewrite app_nil_r.
    repeat split.
Qed.

Lemma audio_chunk_forwards_one_frame_witness :
  let w := snd (connect env_ok init_world) in
  let msg := [("type", JStr "audio_chunk"); ("data", JStr "aGVsbG8=")] in
  let r := inbound_iteration env_ok Base64.b64decode
             (Recv_text (Some (JObj msg))) w in
  upstream_calls (trace (snd r))
  = [Send_realtime_input_media (pcm_frame ["h"; "e"; "l"; "l"; "o"]%byte)].
Proof.
  intros w msg r.
  destruct (audio_chunk_forwards_one_frame env_ok Base64.b64decode w msg
              "aGVsbG8=" ["h"; "e"; "l"; "l"; "o"]%byte
              eq_refl eq_refl eq_refl eq_refl eq_refl)
    as (_ & H & _).
  destruct H as (frame & U & D & _ & P & R); [discriminate|].
  fold r in U. rewrite U. destruct frame as [d p n]; cbn in D, P, R.
  now subst.
Defined.

(** C8, as stated, fails: the empty string is valid base64 (it decodes to
    no bytes), yet an [audio_chunk] message that carries it, received on
    an active session, forwards no frame at all. *)
Lemma empty_audio_chunk_forwards_no_frame :
  let w := snd (connect env_ok init_world) in
  let msg := [("type", JStr "audio_chunk"); ("data", JStr "")] in
  let r := inbound_iteration env_ok Base64.b64decode
             (Recv_text (Some (JObj msg))) w in
  is_active (self w) = true
  /\ Base64.b64decode "" = Some []
  /\ upstream_calls (trace (snd r)) = []
  /\ upstream_calls (trace (snd r))
     <> [Send_realtime_input_media (pcm_frame [])].
Proof. vm_compute. repeat split; congruence. Qed.

(** ** handle_tool_call *)

Lemma ws_sent_tool_call_events (fcs : list FunctionCall) :
  ws_sent (tool_call_events fcs) = List.map notification_for fcs.
Proof. induction fcs as [|fc rest IH]; cbn; [reflexivity | now rewrite IH]. Qed.

Lemma ws_delivered_tool_call_events (fcs : list FunctionCall) :
  ws_delivered (tool_call_events fcs) = List.map notification_for fcs.
Proof. induction fcs as [|fc rest IH]; cbn; [reflexivity | now rewrite IH]. Qed.

Lemma upstream_calls_tool_call_events (fcs : list FunctionCall) :
  upstream_calls (tool_call_events fcs) = [].
Proof. induction fcs as [|fc rest IH]; cbn; [reflexivity | exact IH]. Qed.

Lemma no_raise_in_tool_call_events (fcs : list FunctionCall) :
  List.existsb has_raised (tool_call_events fcs) = false.
Proof. induction fcs as [|fc rest IH]; cbn; [reflexivity | exact IH]. Qed.

(** The loop over the requests never touches the session object and makes
    no upstream call; when it completes, it has notified the client of
    every request, in order, and holds one response per request. *)
Lemma tool_call_loop_frame (env : Env) (fcs : list FunctionCall) :
  forall (acc : list FunctionResponse) (w : World),
    let r := tool_call_loop env fcs acc w in
    self (snd r) = self w
    /\ exists new, trace (snd r) = trace w ++ new
       /\ upstream_calls new = []
       /\ forall res, fst r = Normal res ->
            res = acc ++ List.map response_for fcs
            /\ new = tool_call_events fcs.
Proof.
  induction fcs as [|fc rest IH]; intros acc w; cbn.
  - unfold ret; cbn. split; [reflexivity|]. exists [].
    rewrite !app_nil_r. repeat split; intros; congruence.
  - coro_core. rewrite length_app; cbn.
    destruct (env _ (Ws_send_json _)) as [e|]; cbn.
    + split; [reflexivity|]. rewrite <- app_assoc.
      eexists. split; [reflexivity|]. split; [reflexivity|]. discriminate.
    + match goal with |- context [tool_call_loop env rest ?a ?w1] =>
        pose proof (IH a w1) as H;
        destruct (tool_call_loop env rest a w1) as [o w2] end.
      cbn in H. destruct H as (S & new & T & U & N).
      cbn. split; [exact S|]. rewrite T, <- !app_assoc.
      eexists. split; [reflexivity|]. split; [exact U|].
      intros res Hres. destruct (N res Hres) as (E & Ev).
      rewrite E, Ev, <- app_assoc. split; reflexivity.
Qed.

Lemma tool_call_loop_ok (env : Env) (fcs : list FunctionCall) :
  ws_ok env ->
  forall (acc : list FunctionResponse) (w : World),
    exists res, fst (tool_call_loop env fcs acc w) = Normal res.
Proof.
  intros Hok. induction fcs as [|fc rest IH]; intros acc w; cbn.
  - eexists; reflexivity.
  - coro_core. rewrite Hok; cbn. apply IH.
Qed.

(** C5: a batch of N requests.  [handle_tool_call] always returns and
    leaves the session object as it was, so the outbound loop goes on
    with the rest of the event.  When the client takes every
    notification, the trace shows the N [tool_call] notifications, one per
    request with its name and args, followed by one [send_tool_response]
    whose N entries repeat the id and name of the requests in order.
    When any call of the batch raises, the error is logged as the last
    act of the handler. *)
Theorem tool_call_batch (env : Env) (fcs : list FunctionCall) (w : World) :
  session (self w) = Some The_session ->
  let r := handle_tool_call env {| function_calls := Some fcs |} w in
  fst r = Normal tt
  /\ self (snd r) = self w
  /\ (ws_ok env ->
      (exists outcome final,
         trace (snd r)
         = trace w ++ tool_call_events fcs
           ++ [Ev_call (Send_tool_response (List.map response_for fcs)) outcome;
               final])
      /\ ws_sent (trace (snd r))
         = ws_sent (trace w) ++ List.map notification_for fcs
      /\ List.length (List.map notification_for fcs) = List.length fcs
      /\ upstream_calls (trace (snd r))
         = upstream_calls (trace w)
           ++ [Send_tool_response (List.map response_for fcs)]
      /\ List.length (List.map response_for fcs) = List.length fcs
      /\ List.map fr_id (List.map response_for fcs) = List.map fc_id fcs
      /\ List.map fr_name (List.map response_for fcs) = List.map fc_name fcs)
  /\ (forall new,
        trace (snd r) = trace w ++ new ->
        List.existsb has_raised new = true ->
        exists pre, new = pre ++ [tool_call_error]).
Proof.
  intros Hs. unfold handle_tool_call; cbn [function_calls].
  unfold try_except, bind.
  destruct (tool_call_loop_frame env fcs [] w) as (S & new & T & U & N).
  destruct (tool_call_loop env fcs [] w) as [[res|e] w1] eqn:Eloop;
    cbn in S, T, N.
  - destruct (N res eq_refl) as (-> & ->). clear N.
    coro_core. rewrite S, Hs; cbn.
    set (resp := Send_tool_response (List.map response_for fcs)).
    assert (Hmaps :
      List.length (List.map notification_for fcs) = List.length fcs
      /\ List.length (List.map response_for fcs) = List.length fcs
      /\ List.map fr_id (List.map response_for fcs) = List.map fc_id fcs
      /\ List.map fr_name (List.map response_for fcs) = List.map fc_name fcs).
    { rewrite !length_map, !map_map. repeat split. }
    destruct Hmaps as (L1 & L2 & M1 & M2).
    destruct (env _ resp) as [e|]; cbn; rewrite T, <- !app_assoc; cbn;
      (split; [reflexivity|]); (split; [exact S|]); split.
    + intros _. split; [eauto|].
      rewrite ws_sent_app, upstream_calls_app, ws_sent_app, upstream_calls_app.
      rewrite ws_sent_tool_call_events, upstream_calls_tool_call_events; cbn.
      rewrite app_nil_r. auto 10.
    + intros new' Hnew _. apply app_inv_head in Hnew. subst new'.
      exists (tool_call_events fcs ++ [Ev_call resp (Some e)]).
      now rewrite <- app_assoc.
    + intros _. split; [eauto|].
      rewrite ws_sent_app, upstream_calls_app, ws_sent_app, upstream_calls_app.
      rewrite ws_sent_tool_call_events, upstream_calls_tool_call_events; cbn.
      rewrite app_nil_r. auto 10.
    + intros new' Hnew Hr. apply app_inv_head in Hnew. subst new'.
      rewrite existsb_app, no_raise_in_tool_call_events in Hr. discriminate.
  - clear N. coro_core. rewrite T, <- app_assoc.
    split; [reflexivity|]. split; [exact S|]. split.
    + intros Hok. destruct (tool_call_loop_ok env fcs Hok [] w) as [res Hres].
      rewrite Eloop in Hres. discriminate.
    + intros new' Hnew _. apply app_inv_head in Hnew. subst new'.
      now exists new.
Qed.

Lemma tool_call_batch_witness :
  let w := snd (connect env_ok init_world) in
  let fcs :=
    [ {| fc_id := Some "call-1"; fc_name := Some "summarize";
         fc_args := Some (JObj [("topic", JStr "tides")]) |};
      {| fc_id := Some "call-2"; fc_name := Some "translate";
         fc_args := None |} ] in
  let r := handle_tool_call env_ok {| function_calls := Some fcs |} w in
  fst r = Normal tt
  /\ upstream_calls (trace (snd r))
     = [Send_tool_response
          [ {| fr_id := Some "call-1"; fr_name := Some "summarize";
               fr_result := "ok"; fr_scheduling := "SILENT" |};
            {| fr_id := Some "call-2"; fr_name := Some "translate";
               fr_result := "ok"; fr_scheduling := "SILENT" |} ]].
Proof.
  intros w fcs r.
  destruct (tool_call_batch env_ok fcs w eq_refl) as (R & _ & H & _).
  destruct (H (fun _ _ => eq_refl)) as (_ & _ & _ & U & _).
  split; [exact R | exact U].
Defined.

(** ** What a computation sends to the client *)

Lemma sends_ret {A} (a : A) : sends (ret a) [].
Proof. intros w; cbn. now rewrite !app_nil_r. Qed.

Lemma sends_raise {A} (e : exn) : sends (@raise A e) [].
Proof. intros w; cbn. now rewrite !app_nil_r. Qed.

Lemma sends_log (lvl : LogLevel) (fmt : string) : sends (log lvl fmt) [].
Proof.
  intros w; cbn. rewrite ws_sent_app, ws_delivered_app; cbn. auto.
Qed.

Lemma sends_send_json (env : Env) (m : ClientMsg) :
  ws_ok env -> sends (send_json env m) [m].
Proof.
  intros Hok w. coro_core. rewrite Hok; cbn.
  rewrite ws_sent_app, ws_delivered_app; cbn. auto.
Qed.

Lemma sends_bind {A B} (m : M A) (k : A -> M B) (a b : list ClientMsg) :
  returns m -> sends m a -> (forall x, sends (k x) b) ->
  sends (bind m k) (a ++ b).
Proof.
  intros Hr Hm Hk w. unfold bind.
  destruct (Hr w) as [x Hx]. destruct (Hm w) as [S D].
  destruct (m w) as [o w1]; cbn in *. subst o.
  destruct (Hk x w1) as [S' D']. rewrite S', D', S, D, !app_assoc. auto.
Qed.

Lemma sends_bind_raise {A B} (m : M A) (k : A -> M B) (a : list ClientMsg) :
  raises m -> sends m a -> sends (bind m k) a.
Proof.
  intros Hr Hm w. unfold bind.
  destruct (Hr w) as [e He]. destruct (Hm w) as [S D].
  destruct (m w) as [o w1]; cbn in *. subst o. cbn. auto.
Qed.

Lemma sends_bind_ret {A B} (a : A) (k : A -> M B) (msgs : list ClientMsg) :
  sends (k a) msgs -> sends (bind (ret a) k) msgs.
Proof. intros H w. exact (H w). Qed.

Lemma returns_ret {A} (a : A) : returns (ret a).
Proof. intros w. now exists a. Qed.

Lemma returns_log (lvl : LogLevel) (fmt : string) : returns (log lvl fmt).
Proof. intros w. now exists tt. Qed.

Lemma returns_send_json (env : Env) (m : ClientMsg) :
  ws_ok env -> returns (send_json env m).
Proof. intros Hok w. coro_core. rewrite Hok. now exists tt. Qed.

Lemma returns_bind {A B} (m : M A) (k : A -> M B) :
  returns m -> (forall x, returns (k x)) -> returns (bind m k).
Proof.
  intros Hm Hk w. unfold bind. destruct (Hm w) as [x Hx].
  destruct (m w) as [o w1]; cbn in *. subst o. apply Hk.
Qed.

Lemma raises_raise {A} (e : exn) : raises (@raise A e).
Proof. intros w. now exists e. Qed.

(** Whatever happens first, a computation whose continuation raises also
    raises. *)
Lemma raises_bind {A B} (m : M A) (k : A -> M B) :
  (forall x, raises (k x)) -> raises (bind m k).
Proof.
  intros Hk w. unfold bind. destruct (m w) as [[x|e] w1]; cbn.
  - apply Hk.
  - now exists e.
Qed.

Lemma raises_with_bind {A B} (e : exn) (m : M A) (k : A -> M B) :
  returns m -> (forall x, raises_with e (k x)) -> raises_with e (bind m k).
Proof.
  intros Hm Hk w. unfold bind. destruct (Hm w) as [x Hx].
  destruct (m w) as [o w1]; cbn in *. subst o. apply Hk.
Qed.

Lemma raises_with_raises {A} (e : exn) (m : M A) : raises_with e m -> raises m.
Proof. intros H w. exists e. apply H. Qed.

Create HintDb relay.
#[local] Hint Resolve sends_ret sends_log sends_send_json returns_ret
  returns_log returns_send_json returns_bind raises_raise : relay.

Lemma handle_tool_call_sends (env : Env) (tc : ToolCall) :
  ws_ok env -> sends (handle_tool_call env tc) (batch_messages tc).
Proof.
  intros Hok w. unfold handle_tool_call, batch_messages.
  destruct (function_calls tc) as [fcs|].
  - unfold try_except, bind.
    destruct (tool_call_loop_frame env fcs [] w) as (S & new & T & _ & N).
    destruct (tool_call_loop_ok env fcs Hok [] w) as [res Hres].
    destruct (tool_call_loop env fcs [] w) as [o w1]; cbn in S, T, N, Hres.
    subst o. destruct (N res eq_refl) as (_ & ->).
    coro_core. destruct (session (self w1)); cbn;
      [destruct (env _ (Send_tool_response res)); cbn|];
      rewrite T, !ws_sent_app, !ws_delivered_app,
        ws_sent_tool_call_events, ws_delivered_tool_call_events; cbn;
      now rewrite !app_nil_r.
  - coro_core. rewrite !ws_sent_app, !ws_delivered_app; cbn. auto.
Qed.

Lemma handle_tool_call_total (env : Env) (tc : ToolCall) :
  returns (handle_tool_call env tc).
Proof.
  intros w. exists tt. unfold handle_tool_call.
  destruct (function_calls tc) as [fcs|].
  - unfold try_except, bind.
    destruct (tool_call_loop env fcs [] w) as [[res|e] w1]; [|reflexivity].
    coro_core. destruct (session (self w1)); cbn; [|reflexivity].
    now destruct (env _ (Send_tool_response res)).
  - reflexivity.
Qed.

(** ** process_response *)

Ltac relay := auto using handle_tool_call_total with relay.

(** Over a client that takes every message, the seven tests of
    [process_response] send exactly what the translation table lists. *)
Lemma process_response_sends (env : Env) (b64encode : bytes -> string)
    (r : Response) :
  ws_ok env ->
  sends (process_response env b64encode r) (translation_table b64encode r).
Proof.
  intros Hok. destruct r as [tc d t sc].
  unfold process_response, translation_table, tool_call_messages,
    audio_messages, text_messages, input_transcript_messages,
    output_transcript_messages, turn_complete_messages,
    interrupted_messages, server_content_attr; cbn.
  apply sends_bind.
  { destruct tc; relay. }
  { destruct tc as [[[fcs|]]|]; relay;
      [ exact (handle_tool_call_sends env {| function_calls := Some fcs |} Hok)
      | exact (handle_tool_call_sends env {| function_calls := None |} Hok) ]. }
  intros ?; cbv beta. apply sends_bind.
  { destruct d as [[|b l]|]; cbn; relay. }
  { destruct d as [[|b l]|]; cbn; relay.
    apply (sends_bind _ _ [_] []); relay. }
  intros ?; cbv beta. apply sends_bind.
  { destruct t as [[|c s]|]; cbn; relay. }
  { destruct t as [[|c s]|]; cbn; relay.
    apply (sends_bind _ _ [] [_]); relay. }
  intros ?; cbv beta. destruct sc as [sc|].
  - apply sends_bind_ret. apply sends_bind.
    { destruct (input_transcription sc); relay. }
    { destruct (input_transcription sc); relay. }
    intros ?; cbv beta. apply sends_bind_ret. apply sends_bind.
    { destruct (output_transcription sc); relay. }
    { destruct (output_transcription sc); relay. }
    intros ?; cbv beta. apply (sends_bind _ _ []).
    { destruct (model_turn sc); cbn; relay. }
    { destruct (model_turn sc); cbn; relay. }
    intros ?; cbv beta. apply sends_bind.
    { destruct (turn_complete sc) as [[|]|]; cbn; relay. }
    { destruct (turn_complete sc) as [[|]|]; cbn; relay.
      apply (sends_bind _ _ [] [_]); relay. }
    intros ?; cbv beta. destruct (interrupted sc) as [[|]|]; cbn; relay.
    apply (sends_bind _ _ [] [_]); relay.
  - apply sends_bind_raise; [apply raises_raise | apply sends_raise].
Qed.

(** ** Two frame properties and their rules *)

Section FrameRules.

Variable P : Event -> bool.
Variable I : GeminiSession -> Prop.
Variable env : Env.

Lemma emits_only_ret {A} (a : A) : emits_only P (ret a).
Proof. intros w. exists []. cbn. now rewrite app_nil_r. Qed.

Lemma emits_only_raise {A} (e : exn) : emits_only P (@raise A e).
Proof. intros w. exists []. cbn. now rewrite app_nil_r. Qed.

Lemma emits_only_get_self : emits_only P get_self.
Proof. intros w. exists []. cbn. now rewrite app_nil_r. Qed.

Lemma emits_only_put_self (s : GeminiSession) : emits_only P (put_self s).
Proof. intros w. exists []. cbn. now rewrite app_nil_r. Qed.

Lemma emits_only_set_is_active (b : bool) : emits_only P (set_is_active b).
Proof. intros w. exists []. cbn. now rewrite app_nil_r. Qed.

Lemma emits_only_set_session (v : option AsyncSession) :
  emits_only P (set_session v).
Proof. intros w. exists []. cbn. now rewrite app_nil_r. Qed.

Lemma emits_only_set_session_manager (v : option SessionManager) :
  emits_only P (set_session_manager v).
Proof. intros w. exists []. cbn. now rewrite app_nil_r. Qed.

Lemma emits_only_emit (ev : Event) : P ev = true -> emits_only P (emit ev).
Proof. intros H w. exists [ev]. cbn. now rewrite H. Qed.

Lemma emits_only_await (c : Call) :
  (forall r, P (Ev_call c r) = true) -> emits_only P (await env c).
Proof.
  intros H w. exists [Ev_call c (env (List.length (trace w)) c)].
  unfold await. destruct (env _ c); cbn; now rewrite H.
Qed.

Lemma emits_only_bind {A B} (m : M A) (k : A -> M B) :
  emits_only P m -> (forall x, emits_only P (k x)) -> emits_only P (bind m k).
Proof.
  intros Hm Hk w. unfold bind. destruct (Hm w) as (n1 & T1 & F1).
  destruct (m w) as [[x|e] w1]; cbn in T1 |- *.
  - destruct (Hk x w1) as (n2 & T2 & F2). exists (n1 ++ n2).
    now rewrite T2, T1, app_assoc, forallb_app, F1, F2.
  - now exists n1.
Qed.

Lemma emits_only_try_except {A} (m : M A) (h : exn -> M A) :
  emits_only P m -> (forall e, emits_only P (h e)) ->
  emits_only P (try_except m h).
Proof.
  intros Hm Hh w. unfold try_except. destruct (Hm w) as (n1 & T1 & F1).
  destruct (m w) as [[x|e] w1]; cbn in T1 |- *.
  - now exists n1.
  - destruct (Hh e w1) as (n2 & T2 & F2). exists (n1 ++ n2).
    now rewrite T2, T1, app_assoc, forallb_app, F1, F2.
Qed.

Lemma preserves_ret {A} (a : A) : preserves I (ret a).
Proof. intros w H. exact H. Qed.

Lemma preserves_raise {A} (e : exn) : preserves I (@raise A e).
Proof. intros w H. exact H. Qed.

Lemma preserves_get_self : preserves I get_self.
Proof. intros w H. exact H. Qed.

Lemma preserves_emit (ev : Event) : preserves I (emit ev).
Proof. intros w H. exact H. Qed.

Lemma preserves_await (c : Call) : preserves I (await env c).
Proof. intros w H. unfold await. now destruct (env _ c). Qed.

Lemma preserves_bind {A B} (m : M A) (k : A -> M B) :
  preserves I m -> (forall x, preserves I (k x)) -> preserves I (bind m k).
Proof.
  intros Hm Hk w H. unfold bind. specialize (Hm w H).
  destruct (m w) as [[x|e] w1]; cbn in Hm |- *; [now apply Hk | exact Hm].
Qed.

Lemma preserves_try_except {A} (m : M A) (h : exn -> M A) :
  preserves I m -> (forall e, preserves I (h e)) ->
  preserves I (try_except m h).
Proof.
  intros Hm Hh w H. unfold try_except. specialize (Hm w H).
  destruct (m w) as [[x|e] w1]; cbn in Hm |- *; [exact Hm | now apply Hh].
Qed.

End FrameRules.

Lemma returns_try_except {A} (m : M A) (h : exn -> M A) :
  (forall e, returns (h e)) -> returns (try_except m h).
Proof.
  intros Hh w. unfold try_except. destruct (m w) as [[x|e] w1]; cbn.
  - now exists x.
  - apply Hh.
Qed.

(** Once the flag is down, lowering it again changes nothing. *)
Lemma preserves_inactive_set_false :
  preserves inactive (set_is_active false).
Proof. intros w H. reflexivity. Qed.

(** Walking through a computation with the rules above. *)
Ltac frame_step side :=
  lazymatch goal with
  | |- emits_only _ (bind _ _) => apply emits_only_bind; [|intros ?]
  | |- emits_only _ (try_except _ _) => apply emits_only_try_except; [|intros ?]
  | |- emits_only _ (ret _) => apply emits_only_ret
  | |- emits_only _ (raise _) => apply emits_only_raise
  | |- emits_only _ get_self => apply emits_only_get_self
  | |- emits_only _ (put_self _) => apply emits_only_put_self
  | |- emits_only _ (set_is_active _) => apply emits_only_set_is_active
  | |- emits_only _ (set_session _) => apply emits_only_set_session
  | |- emits_only _ (set_session_manager _) =>
      apply emits_only_set_session_manager
  | |- emits_only _ (emit _) => apply emits_only_emit; side
  | |- emits_only _ (await _ _) => apply emits_only_await; intros ?; side
  | |- preserves _ (bind _ _) => apply preserves_bind; [|intros ?]
  | |- preserves _ (try_except _ _) => apply preserves_try_except; [|intros ?]
  | |- preserves _ (ret _) => apply preserves_ret
  | |- preserves _ (raise _) => apply preserves_raise
  | |- preserves _ get_self => apply preserves_get_self
  | |- preserves _ (emit _) => apply preserves_emit
  | |- preserves _ (await _ _) => apply preserves_await
  | |- preserves _ (set_is_active false) => assumption
  | |- _ _ (match ?x with _ => _ end) => destruct x
  end.

Ltac frame side :=
  unfold send_json, log, with_session, session_receive, b64decode_value,
    server_content_attr, dict_get, py_len, when;
  repeat frame_step side.

(** ** The session methods leave the supervisor's marks alone *)

Ltac quiet := frame ltac:(reflexivity).

Section Quiet.

Variable env : Env.
Variable b64decode : string -> option bytes.
Variable b64encode : bytes -> string.


Lemma send_audio_quiet (v : json) :
  emits_only no_marker (send_audio env b64decode v).
Proof. unfold send_audio. quiet. Qed.

Lemma tool_call_loop_quiet (fcs : list FunctionCall) :
  forall acc, emits_only no_marker (tool_call_loop env fcs acc).
Proof. induction fcs as [|fc rest IH]; intros acc; cbn [tool_call_loop]; quiet.
  apply IH.
Qed.

Lemma handle_tool_call_quiet (tc : ToolCall) :
  emits_only no_marker (handle_tool_call env tc).
Proof. unfold handle_tool_call. quiet. apply tool_call_loop_quiet. Qed.

Lemma process_response_quiet (r : Response) :
  emits_only no_marker (process_response env b64encode r).
Proof. unfold process_response. quiet; apply handle_tool_call_quiet. Qed.

Lemma turn_item_quiet (it : UpItem) :
  emits_only no_marker (turn_item env b64encode it).
Proof. unfold turn_item. quiet. apply process_response_quiet. Qed.

Lemma receive_loop_quiet (stream : list UpItem) :
  forall pc, emits_only no_marker (receive_loop env b64encode pc stream).
Proof.
  induction stream as [|it rest IH]; intros pc; destruct pc;
    cbn [receive_loop]; quiet; try apply turn_item_quiet; apply IH.
Qed.

Lemma receive_responses_quiet (pc : TaskPc) (stream : list UpItem) :
  emits_only no_marker (receive_responses_from env b64encode pc stream).
Proof. unfold receive_responses_from. quiet. apply receive_loop_quiet. Qed.

Lemma receive_responses_returns (pc : TaskPc) (stream : list UpItem) :
  returns (receive_responses_from env b64encode pc stream).
Proof.
  apply returns_try_except. intros e w. now exists Done.
Qed.

Lemma process_client_message_quiet (parsed : option json) :
  emits_only no_marker (process_client_message env b64decode parsed).
Proof. unfold process_client_message. quiet; apply send_audio_quiet. Qed.

Lemma inbound_iteration_quiet (inb : Inbound) :
  emits_only no_marker (inbound_iteration env b64decode inb).
Proof.
  unfold inbound_iteration. quiet; apply process_client_message_quiet.
Qed.

Lemma inbound_iteration_returns (inb : Inbound) :
  returns (inbound_iteration env b64decode inb).
Proof.
  apply returns_try_except. intros [msg|msg] w; now exists Break.
Qed.

End Quiet.

(** ** The session methods only ever lower the flag

    Any property of the session object that survives lowering the flag
    survives every method other than [connect]. *)

Section Lowering.

Variable env : Env.
Variable b64decode : string -> option bytes.
Variable b64encode : bytes -> string.
Variable I : GeminiSession -> Prop.
Hypothesis lowering : preserves I (set_is_active false).

Lemma send_audio_keeps (v : json) :
  preserves I (send_audio env b64decode v).
Proof. unfold send_audio. quiet. Qed.

Lemma tool_call_loop_keeps (fcs : list FunctionCall) :
  forall acc, preserves I (tool_call_loop env fcs acc).
Proof. induction fcs as [|fc rest IH]; intros acc; cbn [tool_call_loop]; quiet.
  apply IH.
Qed.

Lemma handle_tool_call_keeps (tc : ToolCall) :
  preserves I (handle_tool_call env tc).
Proof.
  unfold handle_tool_call. quiet. apply tool_call_loop_keeps.
Qed.

Lemma process_response_keeps (r : Response) :
  preserves I (process_response env b64encode r).
Proof.
  unfold process_response. quiet; apply handle_tool_call_keeps.
Qed.

Lemma turn_item_keeps (it : UpItem) :
  preserves I (turn_item env b64encode it).
Proof. unfold turn_item. quiet. apply process_response_keeps. Qed.

Lemma receive_loop_keeps (stream : list UpItem) :
  forall pc, preserves I (receive_loop env b64encode pc stream).
Proof.
  induction stream as [|it rest IH]; intros pc; destruct pc;
    cbn [receive_loop]; quiet; try apply turn_item_keeps; apply IH.
Qed.

Lemma receive_responses_keeps (pc : TaskPc) (stream : list UpItem) :
  preserves I (receive_responses_from env b64encode pc stream).
Proof.
  unfold receive_responses_from. quiet. apply receive_loop_keeps.
Qed.

Lemma process_client_message_keeps (parsed : option json) :
  preserves I (process_client_message env b64decode parsed).
Proof.
  unfold process_client_message. quiet; apply send_audio_keeps.
Qed.

Lemma inbound_iteration_keeps (inb : Inbound) :
  preserves I (inbound_iteration env b64decode inb).
Proof.
  unfold inbound_iteration. quiet;
    apply process_client_message_keeps.
Qed.

Lemma close_keeps : preserves I (close env).
Proof. unfold close. quiet. Qed.

(** One operation, and then any sequence of them. *)
Lemma run_op_keeps (op : SessionOp) (w : World) :
  I (self w) -> I (self (run_op env b64decode b64encode op w)).
Proof.
  destruct op; cbn [run_op].
  - apply send_audio_keeps.
  - apply handle_tool_call_keeps.
  - apply receive_responses_keeps.
  - apply inbound_iteration_keeps.
  - apply close_keeps.
Qed.

Lemma run_ops_keeps (ops : list SessionOp) :
  forall w, I (self w) -> I (self (run_ops env b64decode b64encode ops w)).
Proof.
  induction ops as [|op ops IH]; intros w H; [exact H|].
  cbn. apply IH. now apply run_op_keeps.
Qed.

End Lowering.

(** A session whose flag is up holds an upstream session: [connect]
    stores the handle before it raises the flag, and nothing else does. *)
Lemma connected_if_active_lowering :
  preserves connected_if_active (set_is_active false).
Proof. intros w _ H. discriminate. Qed.

Lemma connect_connected_if_active (env : Env) (w : World) :
  connected_if_active (self (snd (connect env w))).
Proof.
  unfold connect, connected_if_active. coro_core.
  destruct (env _ Live_connect_aenter); cbn; [discriminate|].
  now destruct (env _ (Ws_send_json _)).
Qed.

Lemma active_session_is_connected (env : Env)
    (b64decode : string -> option bytes) (b64encode : bytes -> string)
    (ops : list SessionOp) (w : World) :
  connected_if_active
    (self (run_ops env b64decode b64encode ops (snd (connect env w)))).
Proof.
  apply run_ops_keeps; [exact connected_if_active_lowering|].
  apply connect_connected_if_active.
Qed.

(** ** The inbound loop and the supervisor *)

Lemma inbound_loop_quiet (env : Env) (b64decode : string -> option bytes)
    (b64encode : bytes -> string) (script : list (list UpItem * Inbound)) :
  forall task,
    emits_only no_marker (inbound_loop env b64decode b64encode task script).
Proof.
  induction script as [|[arrived inb] rest IH]; intros task;
    cbn [inbound_loop]; quiet;
    try apply inbound_iteration_quiet; try apply receive_responses_quiet;
    apply IH.
Qed.

(** The inbound loop ends, and ends without an exception, on every script. *)
Lemma inbound_loop_returns (env : Env) (b64decode : string -> option bytes)
    (b64encode : bytes -> string) (script : list (list UpItem * Inbound)) :
  forall task,
    returns (inbound_loop env b64decode b64encode task script).
Proof.
  induction script as [|[arrived inb] rest IH]; intros task;
    cbn [inbound_loop];
    (apply returns_bind; [intros w; now exists (self w)|]);
    intros s; destruct (is_active s); try (intros w; now exists task).
  apply returns_bind; [apply receive_responses_returns|]. intros task'.
  apply returns_bind; [apply inbound_iteration_returns|].
  intros [|]; [apply IH | apply returns_ret].
Qed.


Ltac views :=
  repeat (progress
    (rewrite ?ws_delivered_app, ?ws_sent_app, ?upstream_calls_app;
     cbn [ws_delivered ws_sent upstream_calls is_upstream_call]));
  repeat (progress (rewrite ?app_nil_r, <- ?app_assoc; cbn [app])).

Ltac flatten_app :=
  repeat (progress (rewrite <- ?app_assoc; cbn [app])); reflexivity.

(** [close] in one equation: the mark, then at most the release and a log
    line, never an exception. *)
Lemma close_shape (env : Env) (w : World) :
  exists rest,
    close env w
    = (Normal tt,
       {| self := {| session := session (self w);
                     session_manager := session_manager (self w);
                     is_active := false;
                     receive_task := receive_task (self w) |};
          trace := trace w ++ Ev_close :: rest |})
    /\ List.forallb is_cleanup rest = true
    /\ count is_close rest = 0.
Proof.
  coro. destruct (session_manager (self w)); cbn.
  - destruct (env _ Session_manager_aexit); cbn; eexists;
      rewrite <- !app_assoc; cbn; repeat split.
  - exists []. repeat split.
Qed.



(** ** connect *)

(** When the upstream refuses the session, [connect] stores nothing,
    leaves the flag down and raises what the upstream raised. *)
Lemma connect_open_failure (env : Env) (w : World) (e : exn) :
  (forall n, env n Live_connect_aenter = Some e) ->
  connect env w
  = (Raised e,
     {| self := deactivated (self w);
        trace := trace w ++
          [Ev_log INFO "Connecting to Gemini model: {MODEL}";
           Ev_call Live_connect_aenter (Some e);
           Ev_log ERROR "Error connecting to Gemini: {e}"] |}).
Proof.
  intros H. unfold connect. coro_core. rewrite H; cbn.
  unfold deactivated. now rewrite <- !app_assoc.
Qed.

(** Whatever makes [connect] raise, the flag is down afterwards. *)
Lemma connect_raises_inactive (env : Env) (w : World) (e : exn) :
  fst (connect env w) = Raised e -> is_active (self (snd (connect env w))) = false.
Proof.
  unfold connect. coro_core.
  destruct (env _ Live_connect_aenter); cbn; [reflexivity|].
  destruct (env _ (Ws_send_json _)); cbn; [reflexivity|discriminate].
Qed.

(** Over a client that takes every message, [connect] either fails to
    open the upstream session or delivers the acknowledgment. *)
Lemma connect_ws_ok (env : Env) (w : World) :
  ws_ok env ->
  (exists e w', connect env w = (Raised e, w')
     /\ ws_delivered (trace w') = ws_delivered (trace w))
  \/ (exists w', connect env w = (Normal true, w')
     /\ ws_delivered (trace w') = ws_delivered (trace w) ++ [connected_ack]).
Proof.
  intros Hok. unfold connect. coro_core.
  destruct (env _ Live_connect_aenter) as [e|]; cbn.
  - left. do 2 eexists. split; [reflexivity|]. cbn.
    rewrite !ws_delivered_app; cbn. now rewrite !app_nil_r.
  - rewrite Hok; cbn. right. eexists. split; [reflexivity|]. cbn.
    rewrite !ws_delivered_app; cbn. now rewrite !app_nil_r.
Qed.

(** On a session that never got a handle, [close] releases nothing. *)
Lemma close_unconnected (env : Env) (w : World) :
  session_manager (self w) = None ->
  close env w
  = (Normal tt,
     {| self := deactivated (self w); trace := trace w ++ [Ev_close] |}).
Proof. intros H. unfold deactivated. coro. now rewrite H. Qed.

(** C7: a failed [connect].  Whenever [connect] raises, the session is
    left non-active; when the upstream refuses to open the session,
    [connect] raises that very exception and has stored no handle, and
    the endpoint answers the client with one [error] message carrying
    its text.  So, over a client that takes every message, the first
    message of every accepted connection is the [connected]
    acknowledgment or an [error]: never silence. *)
Theorem connect_failure_is_reraised_and_reported
    (env : Env) (b64decode : string -> option bytes)
    (b64encode : bytes -> string)
    (script : list (list UpItem * Inbound)) (w : World) :
  let c := connect env w in
  let r := websocket_endpoint env b64decode b64encode script w in
  (forall e, fst c = Raised e -> is_active (self (snd c)) = false)
  /\ (forall e,
        (forall n, env n Live_connect_aenter = Some e) ->
        fst c = Raised e
        /\ is_active (self (snd c)) = false
        /\ session (self (snd c)) = session (self w)
        /\ session_manager (self (snd c)) = session_manager (self w))
  /\ (env (List.length (trace w)) Ws_accept = None ->
      (forall e,
         (forall n, env n Live_connect_aenter = Some e) ->
         ws_sent (trace (snd r)) = ws_sent (trace w) ++ [Msg_error (str_exn e)]
         /\ is_active (self (snd r)) = false
         /\ releases (trace (snd r)) = releases (trace w))
      /\ (ws_ok env ->
          exists m rest,
            ws_delivered (trace (snd r)) = ws_delivered (trace w) ++ m :: rest
            /\ (m = connected_ack \/ exists msg, m = Msg_error msg))).
Proof.
  intros c r. split; [|split].
  - intros e. apply connect_raises_inactive.
  - intros e H. unfold c. rewrite (connect_open_failure env w e H).
    now repeat split.
  - intros Hacc. subst r.
    destruct (websocket_endpoint env b64decode b64encode script w)
      as [o wf] eqn:E.
    unfold websocket_endpoint, cancel_and_await, try_finally, try_except, bind,
      send_json, await, log, emit, put_self, ret in E.
    rewrite Hacc in E. cbn [self trace] in E. split.
    + intros e H. rewrite (connect_open_failure env _ e H) in E.
      cbn [self trace deactivated] in E.
      destruct (env _ (Ws_send_json (Msg_error (str_exn e)))) as [e0|];
        rewrite close_unconnected in E by reflexivity;
        injection E as <- <-; cbn [trace snd self deactivated is_active];
        (split; [|split; [reflexivity|]]);
        rewrite <- ?app_assoc; cbn [app];
        rewrite ?ws_sent_app; cbn [ws_sent]; rewrite ?app_nil_r;
        try reflexivity; count_events.
    + intros Hok.
      match type of E with context [connect env ?w0] =>
        destruct (connect_ws_ok env w0 Hok) as [(e & w1 & Ec & D)|(w1 & Ec & D)];
        rewrite Ec in E end; cbn [trace] in D.
      * rewrite Hok in E.
        match type of E with context [close env ?w4] =>
          destruct (close_shape env w4) as (rest & Ecl & Fc & _);
          rewrite Ecl in E end.
        injection E as <- <-. cbn [trace snd].
        exists (Msg_error (str_exn e)), (ws_delivered (rest ++
          [Ev_log INFO "WebSocket connection closed"])).
        split; [|right; eauto].
        revert D. views. now intros ->.
      * match type of E with context [inbound_loop env _ _ _ _ ?w2] =>
          destruct (inbound_loop_quiet env b64decode b64encode script At_while w2)
            as (n2 & T2 & _);
          destruct (inbound_loop_returns env b64decode b64encode script At_while w2)
            as (task & R2);
          destruct (inbound_loop env b64decode b64encode At_while script w2)
            as [o2 w3] end; cbn in T2, R2. subst o2.
        match type of E with context [close env ?w4] =>
          destruct (close_shape env w4) as (rest & Ecl & Fc & _);
          rewrite Ecl in E end.
        injection E as <- <-. cbn [trace snd].
        exists connected_ack,
          (ws_delivered (n2 ++ [Ev_cancel_task] ++ Ev_close :: rest
                         ++ [Ev_log INFO "WebSocket connection closed"])).
        split; [|now left].
        rewrite T2. revert D. unfold connected_ack. views. intros ->.
        now rewrite <- app_assoc.
Qed.

Lemma connect_failure_is_reraised_and_reported_witness :
  let env : Env := fun _ c =>
    match c with
    | Live_connect_aenter => Some (Exception "upstream unreachable")
    | _ => None
    end in
  let c := connect env init_world in
  let r := websocket_endpoint env Base64.b64decode Base64.b64encode
             [([], Recv_text (Some (JObj [("type", JStr "stop")])))]
             init_world in
  fst c = Raised (Exception "upstream unreachable")
  /\ is_active (self (snd c)) = false
  /\ ws_sent (trace (snd r)) = [Msg_error "upstream unreachable"].
Proof.
  intros env c r.
  destruct (connect_failure_is_reraised_and_reported env Base64.b64decode
              Base64.b64encode
              [([], Recv_text (Some (JObj [("type", JStr "stop")])))]
              init_world) as (_ & B & C).
  destruct (B (Exception "upstream unreachable") (fun _ => eq_refl))
    as (B1 & B2 & _).
  destruct (C eq_refl) as (C1 & _).
  destruct (C1 (Exception "upstream unreachable") (fun _ => eq_refl))
    as (C2 & _).
  split; [exact B1|]. split; [exact B2 | exact C2].
Defined.

(** ** The outbound relay, event by event *)

(** On an active session, consuming an event is running [process_response]. *)
Lemma turn_item_active (env : Env) (b64encode : bytes -> string)
    (r : Response) (w : World) :
  is_active (self w) = true ->
  snd (turn_item env b64encode (Up_yield r) w)
  = snd (process_response env b64encode r w)
  /\ fst (turn_item env b64encode (Up_yield r) w)
     = match fst (process_response env b64encode r w) with
       | Normal _ => Normal In_turn
       | Raised e => Raised e
       end.
Proof.
  intros Ha. unfold turn_item, bind, get_self. rewrite Ha.
  now destruct (process_response env b64encode r w) as [[u|e] w1].
Qed.

(** C2: every populated field of an upstream event is tested on its own
    and translated in the fixed order tool-call, audio, text,
    input-transcript, output-transcript, turn-complete, interrupted: over
    a client that takes every message, consuming the event sends exactly
    the concatenation of the seven independent entries of the table.  In
    particular an event that carries only an output transcription and the
    turn-complete flag gives two messages, [ai_transcription] and then
    [turn_complete]. *)
Theorem event_fields_translated_in_order
    (env : Env) (b64encode : bytes -> string) (r : Response) (w : World) :
  ws_ok env ->
  is_active (self w) = true ->
  let w' := snd (turn_item env b64encode (Up_yield r) w) in
  ws_sent (trace w') = ws_sent (trace w) ++ translation_table b64encode r
  /\ ws_delivered (trace w')
     = ws_delivered (trace w) ++ translation_table b64encode r
  /\ (forall sc tr,
        tool_call r = None -> data r = None -> text r = None ->
        server_content r = Some sc ->
        input_transcription sc = None ->
        output_transcription sc = Some tr ->
        turn_complete sc = Some true ->
        is_true (interrupted sc) = false ->
        ws_delivered (trace w')
        = ws_delivered (trace w)
          ++ [Msg_ai_transcription (transcription_text tr); Msg_turn_complete]).
Proof.
  intros Hok Ha w'. unfold w'.
  destruct (turn_item_active env b64encode r w Ha) as [-> _].
  destruct (process_response_sends env b64encode r Hok w) as [S D].
  split; [exact S|]. split; [exact D|].
  intros sc tr Htc Hd Ht Hsc Hin Hout Hturn Hint. rewrite D. f_equal.
  unfold translation_table, tool_call_messages, audio_messages,
    text_messages, input_transcript_messages, output_transcript_messages,
    turn_complete_messages, interrupted_messages.
  rewrite Htc, Hd, Ht, Hsc, Hin, Hout, Hturn.
  now destruct (interrupted sc) as [[|]|].
Qed.

Lemma event_fields_translated_in_order_witness :
  let w := snd (connect env_ok init_world) in
  let r :=
    {| tool_call := None; data := None; text := None;
       server_content :=
         Some {| model_turn := false;
                 turn_complete := Some true;
                 interrupted := None;
                 input_transcription := None;
                 output_transcription :=
                   Some {| transcription_text := Some "Hello there" |} |} |} in
  let w' := snd (turn_item env_ok Base64.b64encode (Up_yield r) w) in
  ws_delivered (trace w')
  = [connected_ack; Msg_ai_transcription (Some "Hello there");
     Msg_turn_complete].
Proof.
  intros w r w'.
  destruct (event_fields_translated_in_order env_ok Base64.b64encode r w
              (fun _ _ => eq_refl) eq_refl) as (_ & _ & H).
  exact (H _ _ eq_refl eq_refl eq_refl eq_refl eq_refl eq_refl eq_refl eq_refl).
Defined.

Lemma tool_call_loop_before_turn_end (env : Env) (fcs : list FunctionCall) :
  forall acc, emits_only before_turn_end (tool_call_loop env fcs acc).
Proof.
  induction fcs as [|fc rest IH]; intros acc; cbn [tool_call_loop]; quiet.
  apply IH.
Qed.

Lemma handle_tool_call_before_turn_end (env : Env) (tc : ToolCall) :
  emits_only before_turn_end (handle_tool_call env tc).
Proof.
  unfold handle_tool_call. quiet. apply tool_call_loop_before_turn_end.
Qed.

Section AbsentServerContent.

Variable env : Env.
Variable b64encode : bytes -> string.
Variable r : Response.
Hypothesis absent : server_content r = None.

(** The tests on the transcription fields raise, whatever came before. *)
Lemma process_response_raises : raises (process_response env b64encode r).
Proof.
  unfold process_response, server_content_attr. rewrite absent.
  do 3 (apply raises_bind; intros ?).
  intros w. now exists attribute_error.
Qed.

Lemma process_response_stops_before_turn_end :
  emits_only before_turn_end (process_response env b64encode r).
Proof.
  unfold process_response. rewrite absent. quiet.
  apply handle_tool_call_before_turn_end.
Qed.

(** Over a client that takes every message, what is raised is the
    attribute error, after the first three tests have run in full. *)
Lemma process_response_attribute_error :
  ws_ok env ->
  raises_with attribute_error (process_response env b64encode r)
  /\ sends (process_response env b64encode r)
       (tool_call_messages r ++ audio_messages b64encode r ++ text_messages r).
Proof.
  intros Hok. split.
  - unfold process_response, server_content_attr. rewrite absent.
    apply raises_with_bind.
    { destruct (tool_call r); relay. }
    intros ?. apply raises_with_bind.
    { destruct (nonempty_bytes (data r)); relay. }
    intros ?. apply raises_with_bind.
    { destruct (nonempty_str (text r)); relay. }
    intros ? w. reflexivity.
  - intros w. destruct (process_response_sends env b64encode r Hok w) as [S D].
    rewrite S, D. unfold translation_table, input_transcript_messages,
      output_transcript_messages, turn_complete_messages, interrupted_messages.
    rewrite absent. cbn [app]. now rewrite !app_nil_r.
Qed.

End AbsentServerContent.

(** C10: an event without [server_content].  Consuming it on an active
    session always raises, because the transcription fields are read
    through the absent [server_content]; the handler of
    [receive_responses] logs the error and lowers the flag, and the
    coroutine is done: the events that follow are never looked at.
    Nothing of the turn-complete or interrupted handling shows in the
    trace.  Over a client that takes every message the exception is the
    attribute error, and the messages of the tool-call, audio and text
    fields of that event have been delivered. *)
Theorem absent_server_content_ends_outbound_loop
    (env : Env) (b64encode : bytes -> string) (r : Response)
    (rest : list UpItem) (pc : TaskPc) (w : World) :
  server_content r = None ->
  session (self w) = Some The_session ->
  is_active (self w) = true ->
  pc <> Done ->
  let p := process_response env b64encode r w in
  let res := receive_responses_from env b64encode pc (Up_yield r :: rest) w in
  (exists e, fst p = Raised e)
  /\ res = (Normal Done,
            {| self := deactivated (self (snd p));
               trace := trace (snd p) ++ [receive_error] |})
  /\ is_active (self (snd res)) = false
  /\ (exists new,
        trace (snd p) = trace w ++ new
        /\ List.forallb before_turn_end new = true)
  /\ (ws_ok env ->
      fst p = Raised attribute_error
      /\ ws_delivered (trace (snd res))
         = ws_delivered (trace w)
           ++ tool_call_messages r ++ audio_messages b64encode r
           ++ text_messages r).
Proof.
  intros Habs Hs Ha Hpc p res.
  destruct (process_response_raises env b64encode r Habs w) as [e He].
  fold p in He.
  assert (Eres : res = (Normal Done,
                        {| self := deactivated (self (snd p));
                           trace := trace (snd p) ++ [receive_error] |})).
  { unfold res, receive_responses_from, try_except.
    assert (El : receive_loop env b64encode pc (Up_yield r :: rest) w
                 = (Raised e, snd p)).
    { destruct (turn_item_active env b64encode r w Ha) as [Es Ef].
      fold p in Es, Ef. rewrite He in Ef.
      destruct pc; [| |congruence]; cbn [receive_loop];
        unfold session_receive, bind, get_self, ret; rewrite ?Ha, ?Hs;
        destruct (turn_item env b64encode (Up_yield r) w) as [o w1];
        cbn in Es, Ef; now subst. }
    rewrite El. reflexivity. }
  split; [eauto|]. split; [exact Eres|]. split; [now rewrite Eres|].
  split; [apply (process_response_stops_before_turn_end env b64encode r Habs)|].
  intros Hok.
  destruct (process_response_attribute_error env b64encode r Habs Hok)
    as [Hr Hsent].
  split; [apply Hr|]. rewrite Eres; cbn [snd trace].
  rewrite ws_delivered_app; cbn. rewrite app_nil_r. apply Hsent.
Qed.

Lemma absent_server_content_ends_outbound_loop_witness :
  let w := snd (connect env_ok init_world) in
  let r :=
    {| tool_call := None; data := Some ["h"; "i"]%byte;
       text := Some "hi"; server_content := None |} in
  let later :=
    {| tool_call := None; data := None; text := Some "later";
       server_content := None |} in
  let res := receive_responses_from env_ok Base64.b64encode At_while
               [Up_yield r; Up_yield later] w in
  fst res = Normal Done
  /\ is_active (self (snd res)) = false
  /\ ws_delivered (trace (snd res))
     = [connected_ack; Msg_audio_response "aGk="; Msg_transcription (Some "hi")].
Proof.
  intros w r later res.
  assert (Hpc : At_while <> Done) by discriminate.
  destruct (absent_server_content_ends_outbound_loop env_ok Base64.b64encode
              r [Up_yield later] At_while w eq_refl eq_refl eq_refl Hpc)
    as (_ & E & A & _ & H).
  destruct (H (fun _ _ => eq_refl)) as [_ D].
  fold res in E, A, D. split; [now rewrite E|]. split; [exact A | exact D].
Defined.

(** ** The flag only goes down *)

(** The inbound loop of the endpoint, with the background coroutine
    interleaved, does nothing to the session but a sequence of these
    operations. *)
Lemma inbound_loop_is_run_ops (env : Env) (b64decode : string -> option bytes)
    (b64encode : bytes -> string) (script : list (list UpItem * Inbound)) :
  forall task w, exists ops,
    snd (inbound_loop env b64decode b64encode task script w)
    = run_ops env b64decode b64encode ops w.
Proof.
  induction script as [|[arrived inb] rest IH]; intros task w;
    cbn [inbound_loop]; unfold bind at 1; unfold get_self;
    destruct (is_active (self w)); try (now exists []).
  - exists [Op_client_message (Recv_raises client_gone)].
    unfold bind. cbn [run_ops List.fold_left run_op].
    destruct (inbound_iteration_returns env b64decode
                (Recv_raises client_gone) w) as [ctl R].
    destruct (inbound_iteration env b64decode _ w) as [o w1]; cbn in R.
    now subst o.
  - unfold bind.
    destruct (receive_responses_returns env b64encode task arrived w)
      as [task' R1].
    destruct (receive_responses_from env b64encode task arrived w)
      as [o1 w1] eqn:E1; cbn in R1. subst o1.
    destruct (inbound_iteration_returns env b64decode inb w1) as [ctl R2].
    destruct (inbound_iteration env b64decode inb w1) as [o2 w2] eqn:E2;
      cbn in R2. subst o2.
    destruct ctl.
    + destruct (IH task' w2) as [ops Hops].
      exists (Op_receive_responses task arrived :: Op_client_message inb :: ops).
      cbn [run_ops List.fold_left run_op]. rewrite E1; cbn [snd].
      rewrite E2; cbn [snd]. exact Hops.
    + exists [Op_receive_responses task arrived; Op_client_message inb].
      cbn [run_ops List.fold_left run_op]. rewrite E1; cbn [snd].
      now rewrite E2.
Qed.

Lemma run_methods_without_connect
    (env : Env) (b64decode : string -> option bytes)
    (b64encode : bytes -> string) (ms : list SessionMethod) :
  List.forallb is_not_connect ms = true ->
  forall w,
    is_active (self w) = false ->
    is_active (self (run_methods env b64decode b64encode ms w)) = false.
Proof.
  induction ms as [|m ms IH]; intros Hms w H; [exact H|].
  cbn [List.forallb] in Hms. apply andb_true_iff in Hms as [Hm Hms].
  cbn. apply (IH Hms). destruct m as [|op]; [discriminate|].
  cbn [run_method].
  now apply (run_op_keeps env b64decode b64encode inactive
               preserves_inactive_set_false).
Qed.

(** C9, as the code has it: the flag stays down as long as [connect] is
    not called again.  Take any sequence of calls of the methods of a
    session, [connect] included, and any continuation of it that contains
    no [connect]: if the flag is down after the sequence, it is down
    after the continuation.  A single call that finds the flag down and
    leaves it up is a call of [connect].  Lowering the flag again, as a
    second [close] does, leaves the session object as it is.  The loops
    of the endpoint contain no [connect]: they are a sequence of the
    other operations. *)
Theorem active_flag_stays_down_without_connect
    (env : Env) (b64decode : string -> option bytes)
    (b64encode : bytes -> string)
    (before after : list SessionMethod) (w : World) :
  List.forallb is_not_connect after = true ->
  is_active (self (run_methods env b64decode b64encode before w)) = false ->
  is_active (self (run_methods env b64decode b64encode (before ++ after) w))
  = false
  /\ (forall m w0,
        is_active (self w0) = false ->
        is_active (self (run_method env b64decode b64encode m w0)) = true ->
        m = Method_connect)
  /\ self (snd (set_is_active false
                  (run_methods env b64decode b64encode before w)))
     = self (run_methods env b64decode b64encode before w)
  /\ self (snd (close env (snd (close env w)))) = self (snd (close env w))
  /\ (forall script task,
        exists ops,
          snd (inbound_loop env b64decode b64encode task script w)
          = run_ops env b64decode b64encode ops w).
Proof.
  intros Hafter H. split; [|split; [|split; [|split]]].
  - unfold run_methods. rewrite fold_left_app.
    now apply run_methods_without_connect.
  - intros m w0 H0 H1. destruct m as [|op]; [reflexivity|].
    cbn [run_method] in H1.
    pose proof (run_op_keeps env b64decode b64encode inactive
                  preserves_inactive_set_false op w0 H0) as H2.
    unfold inactive in H2. congruence.
  - cbn. destruct (self (run_methods env b64decode b64encode before w));
      cbn in *. now subst.
  - destruct (close_shape env w) as (rest & -> & _).
    match goal with |- context [close env ?w1] =>
      destruct (close_shape env w1) as (rest' & -> & _) end.
    reflexivity.
  - intros script task. apply inbound_loop_is_run_ops.
Qed.

Lemma active_flag_stays_down_without_connect_witness :
  let env : Env := fun _ c =>
    match c with
    | Send_realtime_input_media _ => Some (Exception "connection reset")
    | _ => None
    end in
  let before := [Method_connect; Method_other (Op_send_audio (JStr "aGVsbG8="))] in
  let after :=
    [Method_other
       (Op_client_message
          (Recv_text (Some (JObj [("type", JStr "end_of_turn")]))));
     Method_other (Op_send_audio (JStr "AAAA"));
     Method_other (Op_receive_responses At_while [Up_stop]);
     Method_other Op_close] in
  is_active (self (run_methods env Base64.b64decode Base64.b64encode
                     [Method_connect] init_world)) = true
  /\ is_active (self (run_methods env Base64.b64decode Base64.b64encode
                        (before ++ after) init_world)) = false.
Proof.
  intros env before after. split; [reflexivity|].
  exact (proj1 (active_flag_stays_down_without_connect env Base64.b64decode
                  Base64.b64encode before after init_world eq_refl eq_refl)).
Defined.

(** C9, as stated, fails: nothing refuses a second [connect] on a closed
    session, and it raises the flag again. *)
Lemma reconnect_raises_the_flag_again :
  let run := run_methods env_ok Base64.b64decode Base64.b64encode in
  is_active (self (run [Method_connect] init_world)) = true
  /\ is_active (self (run [Method_connect; Method_other Op_close] init_world))
     = false
  /\ is_active
       (self (run [Method_connect; Method_other Op_close; Method_connect]
                init_world))
     = true.
Proof. vm_compute. repeat split. Qed.

(** * Further properties of the relay *)

(** ** Inbound messages, case by case *)

Lemma send_audio_decode_failure
    (env : Env) (b64decode : string -> option bytes) (v : json) (w : World) :
  session (self w) = Some The_session ->
  is_active (self w) = true ->
  match v with JStr s => b64decode s = None | _ => True end ->
  send_audio env b64decode v w
  = (Normal tt,
     {| self := deactivated (self w);
        trace := trace w ++ [Ev_log ERROR "Error sending audio to Gemini: {e}"] |}).
Proof.
  intros Hs Ha Hv. unfold deactivated. coro. rewrite Hs, Ha.
  destruct v; cbn; try rewrite Hv; cbn; now rewrite ?Hs.
Qed.

(** X1: a payload that does not decode.  On an active session, when the
    payload is not a string or is a string that [b64decode] refuses,
    [send_audio] makes no upstream call: it logs the error, lowers the
    flag and returns, and the next chunk, valid or not, is dropped. *)
Theorem send_audio_undecodable_deactivates
    (env : Env) (b64decode : string -> option bytes) (v next : json)
    (w : World) :
  session (self w) = Some The_session ->
  is_active (self w) = true ->
  match v with JStr s => b64decode s = None | _ => True end ->
  let r := send_audio env b64decode v w in
  r = (Normal tt,
       {| self := deactivated (self w);
          trace := trace w ++ [Ev_log ERROR "Error sending audio to Gemini: {e}"] |})
  /\ upstream_calls (trace (snd (send_audio env b64decode next (snd r))))
     = upstream_calls (trace w).
Proof.
  intros Hs Ha Hv r. unfold r.
  rewrite (send_audio_decode_failure env b64decode v w Hs Ha Hv).
  split; [reflexivity|]. cbn [snd].
  rewrite send_audio_inactive by (right; reflexivity).
  cbn [snd trace]. views. reflexivity.
Qed.

Lemma send_audio_undecodable_deactivates_witness :
  let w := snd (connect env_ok init_world) in
  let r := send_audio env_ok Base64.b64decode (JStr "not base64!") w in
  is_active (self (snd r)) = false /\ upstream_calls (trace (snd r)) = [].
Proof.
  intros w r.
  destruct (send_audio_undecodable_deactivates env_ok Base64.b64decode
              (JStr "not base64!") (JStr "aGk=") w eq_refl eq_refl eq_refl)
    as [E _].
  fold r in E. rewrite E. split; reflexivity.
Defined.

(** X2: a text message.  A [text_message] with a non-empty string is
    forwarded as one [send(input=text, end_of_turn=True)].  If the call
    returns the loop continues; if it raises, the handler of the loop
    logs its line and the loop is told to stop.  Either way the session
    object is untouched: a failed text turn does not lower the flag. *)
Theorem text_message_forwards_one_turn
    (env : Env) (b64decode : string -> option bytes) (w : World)
    (kv : list (string * json)) (t : string) :
  assoc "type" kv = Some (JStr "text_message") ->
  assoc "text" kv = Some (JStr t) ->
  t <> "" ->
  session (self w) = Some The_session ->
  exists outcome,
    inbound_iteration env b64decode (Recv_text (Some (JObj kv))) w
    = (Normal (match outcome with None => Continue | Some _ => Break end),
       {| self := self w;
          trace := trace w ++
            [Ev_log INFO "Received text message: {text}";
             Ev_call (Session_send (JStr t)) outcome]
            ++ match outcome with
               | None => []
               | Some e => [break_log e]
               end |}).
Proof.
  intros Hty Htext Ht Hs.
  exists (env (S (List.length (trace w))) (Session_send (JStr t))).
  inbound. rewrite Hty; cbn. rewrite Htext; cbn.
  destruct t as [|c t]; [congruence|]. cbn. rewrite Hs; cbn.
  rewrite length_app, Nat.add_1_r; cbn.
  destruct (env _ (Session_send _)) as [[msg|msg]|]; cbn;
    now rewrite <- ?app_assoc.
Qed.

Lemma text_message_forwards_one_turn_witness :
  let w := snd (connect env_ok init_world) in
  let kv := [("type", JStr "text_message"); ("text", JStr "hello")] in
  let r := inbound_iteration env_ok Base64.b64decode
             (Recv_text (Some (JObj kv))) w in
  fst r = Normal Continue
  /\ upstream_calls (trace (snd r)) = [Session_send (JStr "hello")].
Proof.
  intros w kv r.
  assert (Hne : "hello" <> "") by discriminate.
  destruct (text_message_forwards_one_turn env_ok Base64.b64decode w kv
              "hello" eq_refl eq_refl Hne eq_refl) as [outcome E].
  split; reflexivity.
Defined.

(** X3: what cannot be read ends the loop.  When [receive_text] raises,
    when [json.loads] refuses the text, or when the text is JSON but not
    an object, the iteration ends the loop after one log line; nothing
    is sent upstream or to the client and the session object is
    untouched. *)
Theorem unreadable_message_breaks
    (env : Env) (b64decode : string -> option bytes) (w : World) :
  (forall e,
     inbound_iteration env b64decode (Recv_raises e) w
     = (Normal Break, {| self := self w; trace := trace w ++ [break_log e] |}))
  /\ inbound_iteration env b64decode (Recv_text None) w
     = (Normal Break,
        {| self := self w;
           trace := trace w ++ [break_log (Exception "JSONDecodeError")] |})
  /\ (forall v,
        is_object v = false ->
        inbound_iteration env b64decode (Recv_text (Some v)) w
        = (Normal Break,
           {| self := self w;
              trace := trace w ++
                [break_log (Exception "object has no attribute 'get'")] |})).
Proof.
  repeat split.
  - intros [msg|msg]; reflexivity.
  - intros v Hv. destruct v; try discriminate; reflexivity.
Qed.

Lemma unreadable_message_breaks_witness :
  fst (inbound_iteration env_ok Base64.b64decode
         (Recv_text (Some (JArr [JInt 1]))) init_world) = Normal Break.
Proof.
  destruct (unreadable_message_breaks env_ok Base64.b64decode init_world)
    as (_ & _ & H).
  now rewrite (H (JArr [JInt 1]) eq_refl).
Defined.

(** X4: what is silently skipped.  An object whose [type] is none of the
    four known ones (or is missing), an [audio_chunk] whose [data] is
    missing or falsy, and a [text_message] whose [text] is missing or
    falsy all leave the world exactly as it was, without a log line, and
    the loop continues. *)
Theorem skipped_message_changes_nothing
    (env : Env) (b64decode : string -> option bytes) (w : World)
    (kv : list (string * json)) :
  let ty := match assoc "type" kv with Some v => v | None => JNull end in
  let data := match assoc "data" kv with Some v => v | None => JNull end in
  let text := match assoc "text" kv with Some v => v | None => JStr "" end in
  (eq_str ty "audio_chunk" = false /\ eq_str ty "end_of_turn" = false
   /\ eq_str ty "text_message" = false /\ eq_str ty "stop" = false)
  \/ (eq_str ty "audio_chunk" = true /\ truthy data = false)
  \/ (eq_str ty "text_message" = true /\ truthy text = false) ->
  inbound_iteration env b64decode (Recv_text (Some (JObj kv))) w
  = (Normal Continue, w).
Proof.
  intros ty data text H. inbound. fold ty.
  destruct H as [(H1 & H2 & H3 & H4)|[(H1 & H2)|(H1 & H2)]].
  - rewrite H1, H2, H3, H4. now destruct w.
  - rewrite H1. cbn. fold data. rewrite H2. now destruct w.
  - destruct (eq_str ty "audio_chunk") eqn:Ea.
    { destruct ty; try discriminate. cbn in Ea, H1.
      apply String.eqb_eq in Ea. subst. discriminate. }
    destruct (eq_str ty "end_of_turn") eqn:Ee.
    { destruct ty; try discriminate. cbn in Ee, H1.
      apply String.eqb_eq in Ee. subst. discriminate. }
    rewrite H1. cbn. fold text. rewrite H2. now destruct w.
Qed.

Lemma skipped_message_changes_nothing_witness :
  let w := snd (connect env_ok init_world) in
  inbound_iteration env_ok Base64.b64decode
    (Recv_text (Some (JObj [("type", JStr "ping")]))) w
  = (Normal Continue, w).
Proof.
  intros w.
  apply (skipped_message_changes_nothing env_ok Base64.b64decode w
           [("type", JStr "ping")]).
  left. repeat split.
Defined.

(** X5: an [audio_chunk] whose [data] is not a string.  A number or
    [true] has no [len]: the debug line raises before [send_audio] is
    called, so the loop ends with the session untouched.  A non-empty
    array or object has a length and reaches [send_audio], where decoding
    raises: the loop continues but the session is deactivated.  In both
    cases nothing is sent upstream. *)
Theorem audio_chunk_with_non_string_data
    (env : Env) (b64decode : string -> option bytes) (w : World)
    (kv : list (string * json)) (payload : json) :
  assoc "type" kv = Some (JStr "audio_chunk") ->
  assoc "data" kv = Some payload ->
  truthy payload = true ->
  session (self w) = Some The_session ->
  is_active (self w) = true ->
  let r := inbound_iteration env b64decode (Recv_text (Some (JObj kv))) w in
  match payload with
  | JStr _ => True
  | JArr _ | JObj _ =>
      fst r = Normal Continue
      /\ self (snd r) = deactivated (self w)
      /\ upstream_calls (trace (snd r)) = upstream_calls (trace w)
  | _ =>
      fst r = Normal Break
      /\ self (snd r) = self w
      /\ upstream_calls (trace (snd r)) = upstream_calls (trace w)
  end.
Proof.
  intros Hty Hdata Htruthy Hs Ha r. unfold r.
  unfold inbound_iteration, process_client_message, dict_get, py_len.
  coro_core. rewrite Hty; cbn. rewrite Hdata; cbn. rewrite Htruthy.
  destruct payload; cbn in Htruthy |- *; try discriminate; try exact I;
    try (repeat split; views; reflexivity);
    rewrite send_audio_decode_failure by (try exact I; assumption);
    cbn; repeat split; views; reflexivity.
Qed.

Lemma audio_chunk_with_non_string_data_witness :
  let w := snd (connect env_ok init_world) in
  let number := [("type", JStr "audio_chunk"); ("data", JInt 7)] in
  let array := [("type", JStr "audio_chunk"); ("data", JArr [JInt 7])] in
  fst (inbound_iteration env_ok Base64.b64decode
         (Recv_text (Some (JObj number))) w) = Normal Break
  /\ is_active (self (snd (inbound_iteration env_ok Base64.b64decode
                             (Recv_text (Some (JObj array))) w))) = false.
Proof.
  intros w number array. split.
  - exact (proj1 (audio_chunk_with_non_string_data env_ok Base64.b64decode w
                    number (JInt 7) eq_refl eq_refl eq_refl eq_refl eq_refl)).
  - destruct (audio_chunk_with_non_string_data env_ok Base64.b64decode w
                array (JArr [JInt 7]) eq_refl eq_refl eq_refl eq_refl eq_refl)
      as (_ & S & _).
    now rewrite S.
Defined.

(** X6: the end-of-turn signal, whatever the upstream answers.  With an
    upstream session the iteration makes exactly one
    [send_realtime_input(end_of_turn=True)], logs the outcome, leaves the
    session object untouched and continues; without one it sends
    nothing. *)
Theorem end_of_turn_always_continues
    (env : Env) (b64decode : string -> option bytes) (w : World)
    (kv : list (string * json)) :
  assoc "type" kv = Some (JStr "end_of_turn") ->
  let r := inbound_iteration env b64decode (Recv_text (Some (JObj kv))) w in
  fst r = Normal Continue
  /\ self (snd r) = self w
  /\ upstream_calls (trace (snd r))
     = upstream_calls (trace w)
       ++ (if is_set (session (self w))
           then [Send_realtime_input_end_of_turn] else [])
  /\ ws_sent (trace (snd r)) = ws_sent (trace w).
Proof.
  intros Hty r. unfold r. inbound. rewrite Hty; cbn.
  destruct (session (self w)); cbn.
  - destruct (env _ Send_realtime_input_end_of_turn); cbn;
      repeat split; views; reflexivity.
  - repeat split; views; reflexivity.
Qed.

Lemma end_of_turn_always_continues_witness :
  let w := snd (connect env_ok init_world) in
  let r := inbound_iteration env_ok Base64.b64decode
             (Recv_text (Some (JObj [("type", JStr "end_of_turn")]))) w in
  fst r = Normal Continue
  /\ upstream_calls (trace (snd r)) = [Send_realtime_input_end_of_turn].
Proof.
  intros w r.
  destruct (end_of_turn_always_continues env_ok Base64.b64decode w
              [("type", JStr "end_of_turn")] eq_refl) as (C & _ & U & _).
  split; [exact C | exact U].
Defined.

(** ** Where the inbound loop ends *)

(** A [stop] message: one log line and the order to leave the loop. *)
Lemma stop_message_breaks
    (env : Env) (b64decode : string -> option bytes) (w : World)
    (kv : list (string * json)) :
  assoc "type" kv = Some (JStr "stop") ->
  inbound_iteration env b64decode (Recv_text (Some (JObj kv))) w
  = (Normal Break,
     {| self := self w;
        trace := trace w ++ [Ev_log INFO "Client requested stop"] |}).
Proof. intros Hty. inbound. now rewrite Hty. Qed.

(** X7: the loop reads nothing more once an iteration told it to stop or
    left the flag down.  Whatever the rest of the script holds (inbound
    messages and upstream items alike), the world at the end of the loop
    is the world at the end of that iteration. *)
Theorem inbound_loop_reads_nothing_after_the_end
    (env : Env) (b64decode : string -> option bytes)
    (b64encode : bytes -> string) (task : TaskPc)
    (arrived : list UpItem) (inb : Inbound)
    (rest : list (list UpItem * Inbound)) (w : World) :
  is_active (self w) = true ->
  let w1 := snd (receive_responses_from env b64encode task arrived w) in
  let r2 := inbound_iteration env b64decode inb w1 in
  fst r2 = Normal Break \/ is_active (self (snd r2)) = false ->
  snd (inbound_loop env b64decode b64encode task ((arrived, inb) :: rest) w)
  = snd r2.
Proof.
  intros Ha w1 r2 H. cbn [inbound_loop]. unfold bind at 1. unfold get_self.
  rewrite Ha. unfold bind at 1.
  destruct (receive_responses_returns env b64encode task arrived w)
    as [task' R1].
  unfold r2, w1 in *. clear r2 w1.
  destruct (receive_responses_from env b64encode task arrived w)
    as [o1 w1]; cbn in R1, H |- *. subst o1. unfold bind at 1.
  destruct (inbound_iteration_returns env b64decode inb w1) as [ctl R2].
  destruct (inbound_iteration env b64decode inb w1) as [o2 w2];
    cbn in R2, H |- *. subst o2.
  destruct ctl; [|reflexivity].
  destruct H as [H|H]; [discriminate H|].
  destruct rest as [|[arrived' inb'] rest']; cbn [inbound_loop];
    unfold bind, get_self; now rewrite H.
Qed.

Lemma inbound_loop_reads_nothing_after_the_end_witness :
  let w := snd (connect env_ok init_world) in
  let stop := Recv_text (Some (JObj [("type", JStr "stop")])) in
  let later := Recv_text (Some (audio_chunk_message "aGVsbG8=")) in
  upstream_calls
    (trace (snd (inbound_loop env_ok Base64.b64decode Base64.b64encode
                   At_while [([], stop); ([], later)] w))) = [].
Proof.
  intros w stop later.
  rewrite (inbound_loop_reads_nothing_after_the_end env_ok Base64.b64decode
             Base64.b64encode At_while [] stop [([], later)] w eq_refl
             (or_introl eq_refl)).
  reflexivity.
Defined.

(** ** The outbound coroutine over a whole stream *)

(** Translating an event never writes to the session object: the flag
    is only lowered by the handler of the loop around it. *)
Section Untouched.

Variable env : Env.
Variable b64encode : bytes -> string.
Variable I : GeminiSession -> Prop.

Lemma tool_call_loop_untouched (fcs : list FunctionCall) :
  forall acc, preserves I (tool_call_loop env fcs acc).
Proof.
  induction fcs as [|fc rest IH]; intros acc; cbn [tool_call_loop]; quiet.
  apply IH.
Qed.

Lemma handle_tool_call_untouched (tc : ToolCall) :
  preserves I (handle_tool_call env tc).
Proof. unfold handle_tool_call. quiet. apply tool_call_loop_untouched. Qed.

Lemma process_response_untouched (r : Response) :
  preserves I (process_response env b64encode r).
Proof.
  unfold process_response. quiet; apply handle_tool_call_untouched.
Qed.

End Untouched.

Lemma process_response_same_self (env : Env) (b64encode : bytes -> string)
    (r : Response) (w : World) :
  self (snd (process_response env b64encode r w)) = self w.
Proof.
  now apply (process_response_untouched env b64encode (fun s => s = self w)).
Qed.

Ltac returning Hok :=
  repeat first
    [ apply returns_ret
    | apply returns_log
    | apply (returns_send_json _ _ Hok)
    | apply handle_tool_call_total
    | apply returns_bind; [|intros ?]
    | match goal with
      | |- returns (match ?x with _ => _ end) => destruct x
      end ].

(** With its [server_content] in place and a client that takes every
    message, an event is translated without an exception. *)
Lemma process_response_returns (env : Env) (b64encode : bytes -> string)
    (r : Response) :
  ws_ok env ->
  is_set (server_content r) = true ->
  returns (process_response env b64encode r).
Proof.
  intros Hok Hsc. destruct r as [tc d t [sc|]]; [|discriminate].
  unfold process_response, server_content_attr, when; cbn.
  returning Hok.
Qed.

(** Suspending the coroutine between two items changes nothing: running
    it on [s1] and resuming it on [s2] is running it on [s1 ++ s2]. *)
Lemma receive_loop_app (env : Env) (b64encode : bytes -> string)
    (s1 s2 : list UpItem) :
  forall pc w,
    receive_loop env b64encode pc (s1 ++ s2) w
    = bind (receive_loop env b64encode pc s1)
           (fun pc' => receive_loop env b64encode pc' s2) w.
Proof.
  induction s1 as [|it s1 IH]; intros pc w.
  - destruct pc, s2 as [|it2 s2]; cbn [receive_loop app];
      unfold session_receive; coro_core; try reflexivity;
      (destruct (is_active (self w)); [|reflexivity]);
      now destruct (session (self w)).
  - destruct pc; cbn [receive_loop app].
    + unfold session_receive; coro_core.
      destruct (is_active (self w)); [|now destruct s2].
      destruct (session (self w)); [|reflexivity].
      destruct (turn_item env b64encode it w) as [[pc'|e] w1]; [|reflexivity].
      rewrite IH. reflexivity.
    + coro_core.
      destruct (turn_item env b64encode it w) as [[pc'|e] w1]; [|reflexivity].
      rewrite IH. reflexivity.
    + now destruct s2.
Qed.

Lemma receive_loop_readable (env : Env) (b64encode : bytes -> string)
    (stream : list UpItem) :
  ws_ok env ->
  List.forallb readable stream = true ->
  forall pc w,
    session (self w) = Some The_session ->
    is_active (self w) = true ->
    pc <> Done ->
    exists w',
      receive_loop env b64encode pc stream w = (Normal In_turn, w')
      /\ self w' = self w
      /\ ws_sent (trace w')
         = ws_sent (trace w) ++ List.flat_map (item_messages b64encode) stream
      /\ ws_delivered (trace w')
         = ws_delivered (trace w)
           ++ List.flat_map (item_messages b64encode) stream.
Proof.
  intros Hok. induction stream as [|it rest IH]; intros Hr pc w Hs Ha Hpc.
  - exists w. cbn. rewrite !app_nil_r.
    destruct pc; [| |congruence]; cbn [receive_loop];
      unfold session_receive; coro_core; rewrite ?Ha, ?Hs; auto.
  - cbn [List.forallb] in Hr. apply andb_true_iff in Hr as [Hit Hrest].
    assert (E : receive_loop env b64encode pc (it :: rest) w
                = bind (turn_item env b64encode it)
                       (fun pc' => receive_loop env b64encode pc' rest) w).
    { destruct pc; [| |congruence]; cbn [receive_loop]; [|reflexivity].
      unfold session_receive. coro_core. now rewrite Ha, Hs. }
    rewrite E. unfold bind. destruct it as [r| |e]; [| |discriminate].
    + destruct (turn_item_active env b64encode r w Ha) as [Es Ef].
      destruct (process_response_returns env b64encode r Hok Hit w) as [u Hu].
      rewrite Hu in Ef.
      pose proof (process_response_same_self env b64encode r w) as Hself.
      destruct (process_response_sends env b64encode r Hok w) as [S D].
      destruct (turn_item env b64encode (Up_yield r) w) as [o w1].
      cbn in Es, Ef. subst o w1.
      set (w1 := snd (process_response env b64encode r w)) in *.
      assert (Hin : In_turn <> Done) by discriminate.
      destruct (IH Hrest In_turn w1) as (w' & E' & S' & Sn & Dl);
        try congruence.
      exists w'. rewrite E'. split; [reflexivity|]. split; [congruence|].
      cbn [List.flat_map item_messages].
      rewrite Sn, Dl, S, D, !app_assoc. auto.
    + unfold turn_item, ret.
      assert (Hw : At_while <> Done) by discriminate.
      destruct (IH Hrest At_while w Hs Ha Hw) as (w' & E' & S' & Sn & Dl).
      exists w'. now rewrite E'.
Qed.

(** X8: order is kept across events and turns.  On an active session,
    over a client that takes every message, a stream made of turn ends
    and of events that have their [server_content] is consumed to its
    end: the client receives the translations of the events one after
    the other in arrival order (an event flagged [interrupted] does not
    cut short what follows it), the session object is untouched and the
    coroutine is left waiting inside a turn. *)
Theorem outbound_stream_is_relayed_in_order
    (env : Env) (b64encode : bytes -> string) (stream : list UpItem)
    (pc : TaskPc) (w : World) :
  ws_ok env ->
  List.forallb readable stream = true ->
  session (self w) = Some The_session ->
  is_active (self w) = true ->
  pc <> Done ->
  let r := receive_responses_from env b64encode pc stream w in
  fst r = Normal In_turn
  /\ self (snd r) = self w
  /\ ws_delivered (trace (snd r))
     = ws_delivered (trace w) ++ List.flat_map (item_messages b64encode) stream.
Proof.
  intros Hok Hr Hs Ha Hpc r.
  destruct (receive_loop_readable env b64encode stream Hok Hr pc w Hs Ha Hpc)
    as (w' & E & S & _ & D).
  unfold r, receive_responses_from, try_except. rewrite E. now cbn.
Qed.

Lemma outbound_stream_is_relayed_in_order_witness :
  let w := snd (connect env_ok init_world) in
  let cut :=
    {| tool_call := None; data := None; text := None;
       server_content :=
         Some {| model_turn := false; turn_complete := None;
                 interrupted := Some true; input_transcription := None;
                 output_transcription := None |} |} in
  let said :=
    {| tool_call := None; data := None; text := None;
       server_content :=
         Some {| model_turn := false; turn_complete := Some true;
                 interrupted := None;
                 input_transcription :=
                   Some {| transcription_text := Some "wait" |};
                 output_transcription := None |} |} in
  let r := receive_responses_from env_ok Base64.b64encode At_while
             [Up_yield cut; Up_yield said; Up_stop] w in
  ws_delivered (trace (snd r))
  = [connected_ack; Msg_interrupted; Msg_transcription (Some "wait");
     Msg_turn_complete].
Proof.
  intros w cut said r.
  assert (Hpc : At_while <> Done) by discriminate.
  exact (proj2 (proj2 (outbound_stream_is_relayed_in_order env_ok
                         Base64.b64encode
                         [Up_yield cut; Up_yield said; Up_stop] At_while w
                         (fun _ _ => eq_refl) eq_refl eq_refl eq_refl Hpc))).
Defined.

(** X9: resuming is transparent.  Consuming the items [s1] and, at the
    next resumption, the items [s2] leaves the world and the coroutine
    where consuming [s1 ++ s2] at once leaves them. *)
Theorem receive_responses_resumes
    (env : Env) (b64encode : bytes -> string) (s1 s2 : list UpItem)
    (pc : TaskPc) (w : World) :
  receive_responses_from env b64encode pc (s1 ++ s2) w
  = bind (receive_responses_from env b64encode pc s1)
         (fun pc' => receive_responses_from env b64encode pc' s2) w.
Proof.
  unfold receive_responses_from, try_except, bind.
  rewrite receive_loop_app. unfold bind.
  destruct (receive_loop env b64encode pc s1 w) as [[pc'|e] w1];
    [reflexivity|].
  coro_core. now destruct s2.
Qed.

(** X10: an error of the upstream stream.  When the stream raises after
    some well-formed items, what those items gave has been delivered,
    the error is logged as the last act of the coroutine, the flag is
    down, and the coroutine is done: the items after the error are never
    looked at. *)
Theorem upstream_error_ends_the_relay
    (env : Env) (b64encode : bytes -> string)
    (good rest : list UpItem) (e : exn) (pc : TaskPc) (w : World) :
  ws_ok env ->
  List.forallb readable good = true ->
  session (self w) = Some The_session ->
  is_active (self w) = true ->
  pc <> Done ->
  let before := receive_responses_from env b64encode pc good w in
  let r := receive_responses_from env b64encode pc
             (good ++ Up_raise e :: rest) w in
  r = (Normal Done,
       {| self := deactivated (self w);
          trace := trace (snd before) ++ [receive_error] |})
  /\ ws_delivered (trace (snd r))
     = ws_delivered (trace w) ++ List.flat_map (item_messages b64encode) good.
Proof.
  intros Hok Hr Hs Ha Hpc before r.
  destruct (receive_loop_readable env b64encode good Hok Hr pc w Hs Ha Hpc)
    as (w' & E & S & _ & D).
  assert (Eb : before = (Normal In_turn, w')).
  { unfold before, receive_responses_from, try_except. now rewrite E. }
  assert (Er : r = (Normal Done,
                    {| self := deactivated (self w);
                       trace := trace w' ++ [receive_error] |})).
  { unfold r, receive_responses_from, try_except.
    rewrite receive_loop_app. unfold bind at 1. rewrite E.
    cbn [receive_loop]. unfold turn_item. coro_core.
    unfold deactivated, receive_error. now rewrite S. }
  rewrite Eb, Er. cbn [snd trace]. split; [reflexivity|].
  rewrite ws_delivered_app, D; cbn. now rewrite app_nil_r.
Qed.

Lemma upstream_error_ends_the_relay_witness :
  let w := snd (connect env_ok init_world) in
  let said :=
    {| tool_call := None; data := None; text := Some "one";
       server_content :=
         Some {| model_turn := false; turn_complete := None;
                 interrupted := None; input_transcription := None;
                 output_transcription := None |} |} in
  let r := receive_responses_from env_ok Base64.b64encode At_while
             ([Up_yield said] ++ Up_raise (Exception "stream closed")
                :: [Up_yield said]) w in
  fst r = Normal Done
  /\ is_active (self (snd r)) = false
  /\ ws_delivered (trace (snd r))
     = [connected_ack; Msg_transcription (Some "one")].
Proof.
  intros w said r.
  assert (Hpc : At_while <> Done) by discriminate.
  destruct (upstream_error_ends_the_relay env_ok Base64.b64encode
              [Up_yield said] [Up_yield said] (Exception "stream closed")
              At_while w (fun _ _ => eq_refl) eq_refl eq_refl eq_refl Hpc)
    as [E D].
  fold r in E, D. split; [now rewrite E|]. split; [now rewrite E | exact D].
Defined.

(** X11: nothing is relayed once the flag is down.  However the
    coroutine is resumed on an inactive session, and whatever arrives, no
    message goes to the client and no call goes upstream; the flag stays
    down, and the coroutine is done unless it is still suspended with
    nothing to read. *)
Theorem nothing_is_relayed_once_inactive
    (env : Env) (b64encode : bytes -> string) (pc : TaskPc)
    (stream : list UpItem) (w : World) :
  is_active (self w) = false ->
  let r := receive_responses_from env b64encode pc stream w in
  ws_sent (trace (snd r)) = ws_sent (trace w)
  /\ upstream_calls (trace (snd r)) = upstream_calls (trace w)
  /\ is_active (self (snd r)) = false
  /\ (fst r = Normal Done \/ (pc = In_turn /\ stream = [] /\ r = (Normal In_turn, w))).
Proof.
  intros Ha r. unfold r, receive_responses_from.
  destruct pc.
  - destruct stream; cbn [receive_loop]; coro_core; rewrite Ha; auto.
  - destruct stream as [|it rest]; cbn [receive_loop].
    + coro_core. repeat split; auto.
    + destruct it as [resp| |e]; unfold turn_item; coro_core; rewrite ?Ha.
      * destruct rest; cbn [receive_loop]; coro_core; rewrite Ha; auto.
      * destruct rest; cbn [receive_loop]; coro_core; rewrite Ha; auto.
      * repeat split; views; auto.
  - destruct stream; cbn [receive_loop]; coro_core; auto.
Qed.

Lemma nothing_is_relayed_once_inactive_witness :
  let w := snd (close env_ok (snd (connect env_ok init_world))) in
  let said :=
    {| tool_call := None; data := None; text := Some "late";
       server_content := None |} in
  let r := receive_responses_from env_ok Base64.b64encode In_turn
             [Up_yield said] w in
  ws_sent (trace (snd r)) = ws_sent (trace w) /\ fst r = Normal Done.
Proof.
  intros w said r.
  destruct (nothing_is_relayed_once_inactive env_ok Base64.b64encode In_turn
              [Up_yield said] w eq_refl) as (S & _ & _ & [D|(_ & D & _)]).
  - split; [exact S | exact D].
  - discriminate D.
Defined.

(** ** Tool calls: all or nothing *)

Lemma tool_call_loop_prefix (env : Env) (fcs : list FunctionCall) :
  forall (acc : list FunctionResponse) (w : World),
    let r := tool_call_loop env fcs acc w in
    exists new k,
      trace (snd r) = trace w ++ new
      /\ k <= List.length fcs
      /\ ws_sent new = List.firstn k (List.map notification_for fcs)
      /\ upstream_calls new = []
      /\ forall res, fst r = Normal res ->
           res = acc ++ List.map response_for fcs
           /\ ws_delivered new = List.map notification_for fcs.
Proof.
  induction fcs as [|fc rest IH]; intros acc w; cbn [tool_call_loop].
  - exists [], 0. cbn. rewrite !app_nil_r. repeat split; auto; congruence.
  - coro_core. rewrite length_app; cbn.
    destruct (env _ (Ws_send_json _)) as [e|]; cbn.
    + exists [Ev_log INFO "Tool call received: {fc.name} with args: {fc.args}";
              Ev_call (Ws_send_json (Msg_tool_call (fc_name fc) (fc_args fc)))
                (Some e)], 1.
      rewrite <- app_assoc. cbn.
      repeat split; auto; try lia; discriminate.
    + match goal with |- context [tool_call_loop env rest ?a ?w1] =>
        pose proof (IH a w1) as H;
        destruct (tool_call_loop env rest a w1) as [o w2] end.
      cbn in H. destruct H as (new & k & T & Hk & Sn & U & N).
      exists ([Ev_log INFO "Tool call received: {fc.name} with args: {fc.args}";
               Ev_call (Ws_send_json (Msg_tool_call (fc_name fc) (fc_args fc)))
                 None] ++ new), (S k).
      cbn [snd fst]. rewrite T, <- !app_assoc. cbn.
      rewrite Sn. split; [reflexivity|]. split; [lia|].
      split; [reflexivity|]. split; [exact U|].
      intros res Hres. destruct (N res Hres) as [-> ->].
      now rewrite <- app_assoc.
Qed.

(** X12: the grouped reply is all or nothing.  Whatever the network
    does, the notifications that [handle_tool_call] hands to the client
    are the first k of the batch, in order, for some k; and the upstream
    gets either no reply at all or one reply that answers the whole
    batch, the latter only after every notification was delivered.  A
    partial reply is never sent. *)
Theorem tool_reply_is_all_or_nothing
    (env : Env) (fcs : list FunctionCall) (w : World) :
  let r := handle_tool_call env {| function_calls := Some fcs |} w in
  exists new k,
    trace (snd r) = trace w ++ new
    /\ k <= List.length fcs
    /\ ws_sent new = List.firstn k (List.map notification_for fcs)
    /\ (upstream_calls new = []
        \/ (upstream_calls new
            = [Send_tool_response (List.map response_for fcs)]
            /\ ws_delivered new = List.map notification_for fcs)).
Proof.
  unfold handle_tool_call; cbn [function_calls]. unfold try_except, bind.
  destruct (tool_call_loop_prefix env fcs [] w)
    as (new & k & T & Hk & Sn & U & N).
  destruct (tool_call_loop env fcs [] w) as [[res|e] w1]; cbn in T, N.
  - destruct (N res eq_refl) as [-> D]. coro_core.
    destruct (session (self w1)); cbn.
    + destruct (env _ (Send_tool_response _)) as [e|]; cbn;
        eexists (new ++ [_; _]), k; rewrite T, <- !app_assoc;
        (split; [reflexivity|]); (split; [exact Hk|]);
        rewrite ws_sent_app, upstream_calls_app, ws_delivered_app, U, D;
        cbn; rewrite !app_nil_r; auto.
    + eexists (new ++ [_]), k. rewrite T, <- !app_assoc.
      split; [reflexivity|]. split; [exact Hk|].
      rewrite ws_sent_app, upstream_calls_app, U. cbn.
      rewrite !app_nil_r. auto.
  - coro_core. eexists (new ++ [_]), k. rewrite T, <- !app_assoc.
    split; [reflexivity|]. split; [exact Hk|].
    rewrite ws_sent_app, upstream_calls_app, U. cbn.
    rewrite !app_nil_r. auto.
Qed.

(** ** The upstream handle over a whole connection *)

(** Whatever is true of log lines, of messages to the client and of calls
    on the open upstream session is true of everything that the methods
    other than [connect] and [close] add to the trace. *)
Section Emits.

Variable env : Env.
Variable b64decode : string -> option bytes.
Variable b64encode : bytes -> string.
Variable P : Event -> bool.
Hypothesis P_log : forall lvl fmt, P (Ev_log lvl fmt) = true.
Hypothesis P_ws : forall m r, P (Ev_call (Ws_send_json m) r) = true.
Hypothesis P_upstream :
  forall c r, is_upstream_call c = true -> P (Ev_call c r) = true.

Ltac emitted :=
  frame ltac:(first [apply P_log | apply P_ws | apply P_upstream; reflexivity]).

Lemma send_audio_emits (v : json) :
  emits_only P (send_audio env b64decode v).
Proof. unfold send_audio. emitted. Qed.

Lemma tool_call_loop_emits (fcs : list FunctionCall) :
  forall acc, emits_only P (tool_call_loop env fcs acc).
Proof.
  induction fcs as [|fc rest IH]; intros acc; cbn [tool_call_loop]; emitted.
  apply IH.
Qed.

Lemma handle_tool_call_emits (tc : ToolCall) :
  emits_only P (handle_tool_call env tc).
Proof. unfold handle_tool_call. emitted. apply tool_call_loop_emits. Qed.

Lemma process_response_emits (r : Response) :
  emits_only P (process_response env b64encode r).
Proof. unfold process_response. emitted; apply handle_tool_call_emits. Qed.

Lemma turn_item_emits (it : UpItem) :
  emits_only P (turn_item env b64encode it).
Proof. unfold turn_item. emitted. apply process_response_emits. Qed.

Lemma receive_loop_emits (stream : list UpItem) :
  forall pc, emits_only P (receive_loop env b64encode pc stream).
Proof.
  induction stream as [|it rest IH]; intros pc; destruct pc;
    cbn [receive_loop]; emitted; try apply turn_item_emits; apply IH.
Qed.

Lemma receive_responses_emits (pc : TaskPc) (stream : list UpItem) :
  emits_only P (receive_responses_from env b64encode pc stream).
Proof. unfold receive_responses_from. emitted. apply receive_loop_emits. Qed.

Lemma process_client_message_emits (parsed : option json) :
  emits_only P (process_client_message env b64decode parsed).
Proof. unfold process_client_message. emitted; apply send_audio_emits. Qed.

Lemma inbound_iteration_emits (inb : Inbound) :
  emits_only P (inbound_iteration env b64decode inb).
Proof.
  unfold inbound_iteration. emitted; apply process_client_message_emits.
Qed.

Lemma inbound_loop_emits (script : list (list UpItem * Inbound)) :
  forall task,
    emits_only P (inbound_loop env b64decode b64encode task script).
Proof.
  induction script as [|[arrived inb] rest IH]; intros task;
    cbn [inbound_loop]; emitted;
    try apply inbound_iteration_emits; try apply receive_responses_emits;
    apply IH.
Qed.

End Emits.

Lemma keeps_handle_counts (l : list Event) :
  List.forallb keeps_handle l = true ->
  count is_open l = 0 /\ releases l = 0.
Proof.
  unfold releases. induction l as [|ev l IH]; [now split|].
  cbn [List.forallb]. intros H. apply andb_true_iff in H as [Hev Hl].
  destruct (IH Hl) as (C1 & C2). rewrite !count_cons, C1, C2.
  unfold keeps_handle in Hev. apply negb_true_iff, orb_false_iff in Hev.
  destruct Hev as [-> ->]. auto.
Qed.

(** [connect] on a session without a handle: the handle is stored
    exactly when the upstream session was opened, and nothing is
    released. *)
Lemma connect_handle (env : Env) (w : World) :
  session_manager (self w) = None ->
  exists new,
    trace (snd (connect env w)) = trace w ++ new
    /\ releases new = 0
    /\ count is_open new
       = (if is_set (session_manager (self (snd (connect env w))))
          then 1 else 0)
    /\ (forall ok, fst (connect env w) = Normal ok ->
        is_set (session_manager (self (snd (connect env w)))) = true).
Proof.
  intros Hm. unfold connect. coro_core.
  destruct (env _ Live_connect_aenter) as [e|]; cbn.
  - rewrite Hm. eexists. rewrite <- !app_assoc. split; [reflexivity|].
    repeat split; try discriminate; count_events.
  - destruct (env _ (Ws_send_json _)) as [e|]; cbn;
      eexists; rewrite <- !app_assoc; (split; [reflexivity|]);
      repeat split; count_events.
Qed.

Lemma manager_survives_lowering (m : option SessionManager) :
  preserves (fun s => session_manager s = m) (set_is_active false).
Proof. intros w H. exact H. Qed.

Lemma keeps_handle_log (lvl : LogLevel) (fmt : string) :
  keeps_handle (Ev_log lvl fmt) = true.
Proof. reflexivity. Qed.

Lemma keeps_handle_ws (m : ClientMsg) (r : option exn) :
  keeps_handle (Ev_call (Ws_send_json m) r) = true.
Proof. reflexivity. Qed.

Lemma keeps_handle_upstream (c : Call) (r : option exn) :
  is_upstream_call c = true -> keeps_handle (Ev_call c r) = true.
Proof. now destruct c. Qed.

(** The release that one [close] adds to the trace. *)
Lemma close_releases (env : Env) (w : World) :
  exists new,
    close env w = (Normal tt, {| self := deactivated (self w);
                                 trace := trace w ++ new |})
    /\ count is_open new = 0
    /\ releases new = (if is_set (session_manager (self w)) then 1 else 0).
Proof.
  unfold deactivated. coro. destruct (session_manager (self w)); cbn.
  - destruct (env _ Session_manager_aexit); cbn; eexists;
      rewrite <- !app_assoc; (split; [reflexivity|]); split; count_events.
  - eexists. split; [reflexivity|]. split; count_events.
Qed.

(** X13: the endpoint releases what it opened, once.  Over any network,
    script and interleaving, once the connection is accepted, the
    upstream session is opened at most once, and [__aexit__] is called
    exactly as many times as it was opened: once when [connect] got a
    handle (even if [connect] then failed to greet the client), never when
    it did not. *)
Theorem endpoint_releases_what_it_opened
    (env : Env) (b64decode : string -> option bytes)
    (b64encode : bytes -> string)
    (script : list (list UpItem * Inbound)) (w : World) :
  env (List.length (trace w)) Ws_accept = None ->
  let r := websocket_endpoint env b64decode b64encode script w in
  exists new,
    trace (snd r) = trace w ++ new
    /\ count is_open new <= 1
    /\ releases new = count is_open new.
Proof.
  intros Hacc r. subst r.
  destruct (websocket_endpoint env b64decode b64encode script w)
    as [o wf] eqn:E.
  unfold websocket_endpoint, cancel_and_await, try_finally, try_except, bind,
    send_json, await, log, emit, put_self, ret in E.
  rewrite Hacc in E. cbn [self trace] in E.
  match type of E with context [connect env ?w0] =>
    destruct (connect_handle env w0 eq_refl) as (n1 & T1 & R1 & O1 & M1);
    destruct (connect env w0) as [[ok|e] w1] end; cbn in T1, O1, M1.
  - specialize (M1 ok eq_refl). rewrite M1 in O1.
    match type of E with context [inbound_loop env _ _ _ _ ?w2] =>
      destruct (inbound_loop_emits env b64decode b64encode keeps_handle
                  keeps_handle_log keeps_handle_ws keeps_handle_upstream
                  script At_while w2) as (n2 & T2 & F2);
      destruct (inbound_loop_is_run_ops env b64decode b64encode script
                  At_while w2) as (ops & Hops);
      pose proof (run_ops_keeps env b64decode b64encode _
                    (manager_survives_lowering (session_manager (self w1)))
                    ops w2 eq_refl) as Hm;
      rewrite <- Hops in Hm;
      destruct (inbound_loop_returns env b64decode b64encode script
                  At_while w2) as (task & R2);
      destruct (inbound_loop env b64decode b64encode At_while script w2)
        as [o2 w3] end; cbn in T2, R2, Hm. subst o2.
    destruct (keeps_handle_counts n2 F2) as (O2 & Rl2).
    match type of E with context [close env ?w4] =>
      destruct (close_releases env w4) as (n3 & Ec & O3 & R3);
      rewrite Ec in E end.
    cbn [self] in R3. rewrite Hm, M1 in R3.
    injection E as <- <-. cbn [trace snd]. rewrite T2, T1.
    eexists. split; [flatten_app|]. unfold releases in *.
    split; count_events.
  - match type of E with context [env ?n (Ws_send_json ?m)] =>
      destruct (env n (Ws_send_json m)) end;
      match type of E with context [close env ?w4] =>
        destruct (close_releases env w4) as (n3 & Ec & O3 & R3);
        rewrite Ec in E end;
      cbn [self] in R3; injection E as <- <-; cbn [trace snd]; rewrite T1;
      (eexists; split; [flatten_app|]); unfold releases in *;
      destruct (is_set (session_manager (self w1))); split; count_events.
Qed.

Lemma endpoint_releases_what_it_opened_witness :
  let env : Env := fun _ c =>
    match c with
    | Ws_send_json _ => Some (WebSocketDisconnect "1006")
    | _ => None
    end in
  let r := websocket_endpoint env Base64.b64decode Base64.b64encode
             [] init_world in
  exists new,
    trace (snd r) = trace init_world ++ new
    /\ count is_open new <= 1
    /\ releases new = count is_open new.
Proof.
  intros env.
  exact (endpoint_releases_what_it_opened env Base64.b64decode
           Base64.b64encode [] init_world eq_refl).
Defined.

(** ** The endpoint when it cannot start *)

(** X14: when the upstream refuses the session, nothing of the script is
    read.  The whole run of the endpoint is then fixed, whatever the
    client and the upstream would have sent: the error is reported, no
    task is created, no call goes upstream, and [close] finds no handle
    to release. *)
Theorem refused_connection_runs_no_loop
    (env : Env) (b64decode : string -> option bytes)
    (b64encode : bytes -> string)
    (script : list (list UpItem * Inbound)) (w : World) (e : exn) :
  env (List.length (trace w)) Ws_accept = None ->
  (forall n, env n Live_connect_aenter = Some e) ->
  websocket_endpoint env b64decode b64encode script w
  = (Normal tt,
     {| self := deactivated init_session;
        trace := trace w ++
          [Ev_call Ws_accept None;
           Ev_log INFO "WebSocket connection established from {client_address}";
           Ev_log INFO "Connecting to Gemini model: {MODEL}";
           Ev_call Live_connect_aenter (Some e);
           Ev_log ERROR "Error connecting to Gemini: {e}";
           Ev_log ERROR "WebSocket error: {e}";
           Ev_call (Ws_send_json (Msg_error (str_exn e)))
             (env (6 + List.length (trace w))
                  (Ws_send_json (Msg_error (str_exn e))));
           Ev_close;
           Ev_log INFO "WebSocket connection closed"] |}).
Proof.
  intros Hacc Hfail.
  destruct (websocket_endpoint env b64decode b64encode script w)
    as [o wf] eqn:E.
  unfold websocket_endpoint, cancel_and_await, try_finally, try_except, bind,
    send_json, await, log, emit, put_self, ret in E.
  rewrite Hacc in E. cbn [self trace] in E.
  rewrite (connect_open_failure env _ e Hfail) in E.
  cbn [self trace] in E.
  match type of E with context [env ?n (Ws_send_json ?m)] =>
    replace n with (6 + List.length (trace w)) in E
      by (rewrite !length_app; cbn; lia)
  end.
  destruct (env (6 + List.length (trace w)) (Ws_send_json _));
    rewrite close_unconnected in E by reflexivity;
    rewrite <- E; cbn [self trace deactivated session session_manager
                       receive_task is_active init_session];
    repeat rewrite <- app_assoc; reflexivity.
Qed.

Lemma refused_connection_runs_no_loop_witness :
  let env : Env := fun _ c =>
    match c with
    | Live_connect_aenter => Some (Exception "quota exceeded")
    | _ => None
    end in
  let script := [([], Recv_text (Some (audio_chunk_message "aGVsbG8=")))] in
  let r := websocket_endpoint env Base64.b64decode Base64.b64encode
             script init_world in
  upstream_calls (trace (snd r)) = []
  /\ ws_delivered (trace (snd r)) = [Msg_error "quota exceeded"].
Proof.
  intros env script r. unfold r.
  rewrite (refused_connection_runs_no_loop env Base64.b64decode
             Base64.b64encode script init_world (Exception "quota exceeded")
             eq_refl (fun _ => eq_refl)).
  split; reflexivity.
Defined.

(** X15: a handshake that fails.  [accept] is awaited before the [try]:
    when it raises, the exception leaves the endpoint as it is, and
    nothing else happens: no session is connected and [close] is not
    called. *)
Theorem failed_accept_propagates
    (env : Env) (b64decode : string -> option bytes)
    (b64encode : bytes -> string)
    (script : list (list UpItem * Inbound)) (w : World) (e : exn) :
  env (List.length (trace w)) Ws_accept = Some e ->
  websocket_endpoint env b64decode b64encode script w
  = (Raised e,
     {| self := self w; trace := trace w ++ [Ev_call Ws_accept (Some e)] |}).
Proof.
  intros Hacc. unfold websocket_endpoint. unfold bind at 1.
  unfold await at 1. now rewrite Hacc.
Qed.

Lemma failed_accept_propagates_witness :
  let env : Env := fun _ c =>
    match c with
    | Ws_accept => Some (Exception "handshake failed")
    | _ => None
    end in
  let r := websocket_endpoint env Base64.b64decode Base64.b64encode
             [] init_world in
  fst r = Raised (Exception "handshake failed")
  /\ count is_close (trace (snd r)) = 0.
Proof.
  intros env r. unfold r.
  rewrite (failed_accept_propagates env Base64.b64decode Base64.b64encode
             [] init_world (Exception "handshake failed") eq_refl).
  split; reflexivity.
Defined.

(** ** Start-up and health *)

(** X16: the key that [health_check] reports.  The module loads only
    with a non-empty [GOOGLE_API_KEY]; it then keeps that very string,
    and [health_check] answers [healthy] with [api_key_configured] true.
    With the variable unset or empty, loading logs an error and raises,
    so no answer of [health_check] ever says that the key is missing. *)
Theorem health_reports_a_configured_key
    (getenv : option string) (now_isoformat : string) (w : World) :
  match load_api_key getenv w with
  | (Normal key, w') =>
      getenv = Some key /\ key <> "" /\ w' = w
      /\ health_check key now_isoformat
         = {| health_status := "healthy";
              api_key_configured := true;
              timestamp := now_isoformat |}
  | (Raised e, w') =>
      (getenv = None \/ getenv = Some "")
      /\ e = Exception "GOOGLE_API_KEY is required"
      /\ trace w' = trace w ++
           [Ev_log ERROR "GOOGLE_API_KEY not set. API calls will fail."]
  end.
Proof.
  destruct getenv as [[|c s]|]; cbn; repeat split; auto; discriminate.
Qed.

(** ** Audio through the inbound loop *)

(** Resumed with nothing to read, on an active connected session, the
    coroutine leaves the world as it is. *)
Lemma idle_resumption (env : Env) (b64encode : bytes -> string)
    (pc : TaskPc) (w : World) :
  session (self w) = Some The_session ->
  is_active (self w) = true ->
  exists pc', receive_responses_from env b64encode pc [] w = (Normal pc', w).
Proof.
  intros Hs Ha. unfold receive_responses_from.
  destruct pc; cbn [receive_loop]; unfold session_receive; coro_core;
    rewrite ?Ha, ?Hs; eexists; reflexivity.
Qed.

Lemma audio_chunk_iteration (env : Env) (b64decode : string -> option bytes)
    (payload : string) (audio_bytes : bytes) (w : World) :
  (forall n blob, env n (Send_realtime_input_media blob) = None) ->
  payload <> "" ->
  b64decode payload = Some audio_bytes ->
  session (self w) = Some The_session ->
  is_active (self w) = true ->
  exists w',
    inbound_iteration env b64decode
      (Recv_text (Some (audio_chunk_message payload))) w
    = (Normal Continue, w')
    /\ self w' = self w
    /\ upstream_calls (trace w')
       = upstream_calls (trace w)
         ++ [Send_realtime_input_media (pcm_frame audio_bytes)].
Proof.
  intros Henv Hne Hd Hs Ha.
  destruct payload as [|c payload]; [congruence|].
  pose proof (send_audio_active env b64decode (String c payload) audio_bytes
                {| self := self w;
                   trace := trace w ++
                     [Ev_log DEBUG "Received audio chunk: {len(audio_base64)} bytes"] |}
                Hs Ha Hd) as (R & U & S).
  unfold inbound_iteration, process_client_message, dict_get, py_len,
    audio_chunk_message.
  coro_core.
  destruct (send_audio env b64decode (JStr (String c payload)) _) as [o w'].
  cbn in R, U, S. subst o. exists w'. cbn.
  split; [reflexivity|]. split; [apply S, Henv|].
  rewrite U, upstream_calls_app; cbn. now rewrite app_nil_r.
Qed.


(** ** connect, in full *)

(** X18: the two ways [connect] ends.  Either it returns, and then it
    returns [True] with both handles stored, the flag up and the
    acknowledgment delivered; or it raises, and then the flag is down and
    the client has received nothing from it.  It never returns [False],
    and it never leaves the flag up behind an exception. *)
Theorem connect_returns_true_or_raises (env : Env) (w : World) :
  exists new,
    trace (snd (connect env w)) = trace w ++ new
    /\ match fst (connect env w) with
       | Normal ok =>
           ok = true
           /\ handles_set (self (snd (connect env w)))
           /\ is_active (self (snd (connect env w))) = true
           /\ ws_delivered new = [connected_ack]
       | Raised e =>
           is_active (self (snd (connect env w))) = false
           /\ ws_delivered new = []
       end.
Proof.
  unfold connect, handles_set. coro_core.
  destruct (env _ Live_connect_aenter) as [e|]; cbn.
  - eexists. rewrite <- !app_assoc. split; [reflexivity|]. now cbn.
  - destruct (env _ (Ws_send_json _)) as [e|]; cbn;
      eexists; rewrite <- !app_assoc; (split; [reflexivity|]); now cbn.
Qed.

(** ** What stays and what is never done *)

Lemma handles_survive_lowering : preserves handles_set (set_is_active false).
Proof. intros w H. exact H. Qed.

(** X19: the handles are never cleared.  Once [connect] has stored
    them, [self.session] and [self.session_manager] stay set through
    every later operation on the session, [close] included: after
    [close] only the flag tells that the session is over. *)
Theorem handles_are_never_cleared
    (env : Env) (b64decode : string -> option bytes)
    (b64encode : bytes -> string) (ops : list SessionOp) (w : World) :
  handles_set (self w) ->
  handles_set (self (run_ops env b64decode b64encode ops w)).
Proof.
  apply run_ops_keeps. exact handles_survive_lowering.
Qed.

Lemma handles_are_never_cleared_witness :
  let w := snd (connect env_ok init_world) in
  handles_set
    (self (run_ops env_ok Base64.b64decode Base64.b64encode
             [Op_send_audio (JStr "aGk="); Op_close; Op_close] w)).
Proof.
  intros w.
  apply (handles_are_never_cleared env_ok Base64.b64decode Base64.b64encode).
  split; reflexivity.
Defined.

Section InboundIsSilent.

Variable env : Env.
Variable b64decode : string -> option bytes.

Lemma send_audio_not_to_client (v : json) :
  emits_only not_to_client (send_audio env b64decode v).
Proof. unfold send_audio. quiet. Qed.

Lemma process_client_message_not_to_client (parsed : option json) :
  emits_only not_to_client (process_client_message env b64decode parsed).
Proof.
  unfold process_client_message. quiet; apply send_audio_not_to_client.
Qed.

Lemma inbound_iteration_not_to_client (inb : Inbound) :
  emits_only not_to_client (inbound_iteration env b64decode inb).
Proof.
  unfold inbound_iteration. quiet;
    apply process_client_message_not_to_client.
Qed.

End InboundIsSilent.

Lemma not_to_client_sent (l : list Event) :
  List.forallb not_to_client l = true -> ws_sent l = [].
Proof.
  induction l as [|ev l IH]; [reflexivity|]. cbn [List.forallb].
  intros H. apply andb_true_iff in H as [Hev Hl].
  destruct ev as [c r| | | |]; cbn; auto. destruct c; cbn; auto.
  discriminate.
Qed.

(** X20: the inbound side never answers.  Handling one inbound message,
    whatever it is and however it fails, sends nothing to the client: a
    message that is refused, skipped or that breaks the loop gets no
    reply. *)
Theorem inbound_iteration_sends_nothing_to_client
    (env : Env) (b64decode : string -> option bytes)
    (inb : Inbound) (w : World) :
  ws_sent (trace (snd (inbound_iteration env b64decode inb w)))
  = ws_sent (trace w).
Proof.
  destruct (inbound_iteration_not_to_client env b64decode inb w)
    as (new & T & F).
  rewrite T, ws_sent_app, (not_to_client_sent new F). apply app_nil_r.
Qed.

Section OutboundUpstream.

Variable env : Env.
Variable b64encode : bytes -> string.

Lemma tool_call_loop_at_most_tool_reply (fcs : list FunctionCall) :
  forall acc, emits_only at_most_tool_reply (tool_call_loop env fcs acc).
Proof.
  induction fcs as [|fc rest IH]; intros acc; cbn [tool_call_loop]; quiet.
  apply IH.
Qed.

Lemma handle_tool_call_at_most_tool_reply (tc : ToolCall) :
  emits_only at_most_tool_reply (handle_tool_call env tc).
Proof.
  unfold handle_tool_call. quiet. apply tool_call_loop_at_most_tool_reply.
Qed.

Lemma process_response_at_most_tool_reply (r : Response) :
  emits_only at_most_tool_reply (process_response env b64encode r).
Proof.
  unfold process_response. quiet; apply handle_tool_call_at_most_tool_reply.
Qed.

Lemma turn_item_at_most_tool_reply (it : UpItem) :
  emits_only at_most_tool_reply (turn_item env b64encode it).
Proof.
  unfold turn_item. quiet. apply process_response_at_most_tool_reply.
Qed.

Lemma receive_loop_at_most_tool_reply (stream : list UpItem) :
  forall pc,
    emits_only at_most_tool_reply (receive_loop env b64encode pc stream).
Proof.
  induction stream as [|it rest IH]; intros pc; destruct pc;
    cbn [receive_loop]; quiet; try apply turn_item_at_most_tool_reply;
    apply IH.
Qed.

End OutboundUpstream.

Lemma at_most_tool_reply_calls (l : list Event) :
  List.forallb at_most_tool_reply l = true ->
  List.forallb is_tool_reply (upstream_calls l) = true.
Proof.
  induction l as [|ev l IH]; [reflexivity|]. cbn [List.forallb].
  intros H. apply andb_true_iff in H as [Hev Hl].
  destruct ev as [c r| | | |]; cbn; auto. destruct c; cbn in *; auto.
  all: discriminate.
Qed.

(** X21: the outbound side only ever replies to tools.  Whatever the
    upstream stream holds, the only calls that [receive_responses] makes
    on the upstream session are grouped tool replies: it never sends
    audio, text or an end-of-turn signal. *)
Theorem outbound_only_replies_to_tools
    (env : Env) (b64encode : bytes -> string) (pc : TaskPc)
    (stream : list UpItem) (w : World) :
  exists new,
    trace (snd (receive_responses_from env b64encode pc stream w))
    = trace w ++ new
    /\ List.forallb is_tool_reply (upstream_calls new) = true.
Proof.
  assert (H : emits_only at_most_tool_reply
                (receive_responses_from env b64encode pc stream)).
  { unfold receive_responses_from. quiet.
    apply receive_loop_at_most_tool_reply. }
  destruct (H w) as (new & T & F). exists new.
  split; [exact T | now apply at_most_tool_reply_calls].
Qed.

(** ** Audio in order, with the outbound relay at work *)

Lemma frames_of_app (a b : list Call) :
  frames_of (a ++ b) = frames_of a ++ frames_of b.
Proof. unfold frames_of. apply flat_map_app. Qed.

Lemma tool_replies_hold_no_frame (calls : list Call) :
  List.forallb is_tool_reply calls = true -> frames_of calls = [].
Proof.
  induction calls as [|c calls IH]; [reflexivity|]. cbn [List.forallb].
  intros H. apply andb_true_iff in H as [Hc Hcs].
  destruct c; try discriminate. cbn. now apply IH.
Qed.

(** Resumed on well-formed items while the client takes every message,
    the coroutine hands them on and leaves the session object and the
    audio frames sent so far as they are. *)
Lemma readable_resumption (env : Env) (b64encode : bytes -> string)
    (arrived : list UpItem) (pc : TaskPc) (w : World) :
  ws_ok env ->
  List.forallb readable arrived = true ->
  session (self w) = Some The_session ->
  is_active (self w) = true ->
  pc <> Done ->
  exists w1,
    receive_responses_from env b64encode pc arrived w = (Normal In_turn, w1)
    /\ self w1 = self w
    /\ frames_of (upstream_calls (trace w1))
       = frames_of (upstream_calls (trace w)).
Proof.
  intros Hok Hr Hs Ha Hpc.
  destruct (receive_loop_readable env b64encode arrived Hok Hr pc w Hs Ha Hpc)
    as (w1 & E & S & _).
  destruct (receive_loop_at_most_tool_reply env b64encode arrived pc w)
    as (new & T & F).
  rewrite E in T. cbn [snd] in T. exists w1.
  unfold receive_responses_from, try_except. rewrite E.
  split; [reflexivity|]. split; [exact S|].
  rewrite T, upstream_calls_app, frames_of_app.
  rewrite (tool_replies_hold_no_frame _ (at_most_tool_reply_calls new F)).
  apply app_nil_r.
Qed.

(** X17: audio keeps its order.  Suppose the upstream takes every frame,
    the client takes every message, and what the upstream delivers
    between two inbound messages is made of turn ends and of events that
    have their [server_content].  Then a client that sends a sequence of
    [audio_chunk] messages with non-empty valid payloads and goes away
    has had each payload forwarded as one frame, in the order sent,
    whatever was relayed the other way meanwhile, and the session object
    is as it was. *)
Theorem audio_chunks_are_forwarded_in_order
    (env : Env) (b64decode : string -> option bytes)
    (b64encode : bytes -> string)
    (entries : list (list UpItem * string)) (decoded : list bytes) :
  ws_ok env ->
  (forall n blob, env n (Send_realtime_input_media blob) = None) ->
  List.Forall2
    (fun en b =>
       List.forallb readable (fst en) = true
       /\ snd en <> "" /\ b64decode (snd en) = Some b)
    entries decoded ->
  forall (task : TaskPc) (w : World),
    task <> Done ->
    session (self w) = Some The_session ->
    is_active (self w) = true ->
    let script :=
      List.map (fun en => (fst en,
                           Recv_text (Some (audio_chunk_message (snd en)))))
        entries in
    let w' := snd (inbound_loop env b64decode b64encode task script w) in
    self w' = self w
    /\ frames_of (upstream_calls (trace w'))
       = frames_of (upstream_calls (trace w)) ++ List.map pcm_frame decoded.
Proof.
  intros Hok Henv HF.
  induction HF as [|[arrived p] b ens bs (Hr & Hne & Hd) HF IH];
    intros task w Htask Hs Ha script w'; subst script w'; cbn [List.map].
  - cbn [inbound_loop]. unfold inbound_iteration. coro_core. rewrite Ha. cbn.
    split; [reflexivity|]. views. reflexivity.
  - cbn [fst snd] in *.
    destruct (readable_resumption env b64encode arrived task w
                Hok Hr Hs Ha Htask) as (w1 & Ei & S1 & F1).
    assert (Hs1 : session (self w1) = Some The_session) by congruence.
    assert (Ha1 : is_active (self w1) = true) by congruence.
    destruct (audio_chunk_iteration env b64decode p b w1 Henv Hne Hd Hs1 Ha1)
      as (w2 & Ec & S2 & U2).
    match goal with |- context [inbound_loop _ _ _ _ (_ :: ?rest) _] =>
      assert (E : inbound_loop env b64decode b64encode task
                    ((arrived, Recv_text (Some (audio_chunk_message p)))
                       :: rest) w
                  = inbound_loop env b64decode b64encode In_turn rest w2)
        by (cbn [inbound_loop]; unfold bind, get_self;
            rewrite Ha, Ei; cbn beta iota; rewrite Ec; reflexivity);
      rewrite E
    end.
    assert (Hs2 : session (self w2) = Some The_session) by congruence.
    assert (Ha2 : is_active (self w2) = true) by congruence.
    assert (Hin : In_turn <> Done) by discriminate.
    destruct (IH In_turn w2 Hin Hs2 Ha2) as [S3 U3].
    split; [congruence|].
    rewrite U3, U2, frames_of_app, F1, <- app_assoc. reflexivity.
Qed.

Lemma audio_chunks_are_forwarded_in_order_witness :
  let w := snd (connect env_ok init_world) in
  let asked :=
    {| tool_call :=
         Some {| function_calls :=
                   Some [{| fc_id := Some "call-1";
                            fc_name := Some "adapt_tone";
                            fc_args := None |}] |};
       data := None; text := None;
       server_content :=
         Some {| model_turn := false; turn_complete := Some true;
                 interrupted := None; input_transcription := None;
                 output_transcription := None |} |} in
  let script :=
    [([], Recv_text (Some (audio_chunk_message "aGk=")));
     ([Up_yield asked; Up_stop],
      Recv_text (Some (audio_chunk_message "aGVsbG8=")))] in
  frames_of
    (upstream_calls
       (trace (snd (inbound_loop env_ok Base64.b64decode Base64.b64encode
                      At_while script w))))
  = [pcm_frame ["h"; "i"]%byte; pcm_frame ["h"; "e"; "l"; "l"; "o"]%byte].
Proof.
  intros w asked script.
  assert (HF : List.Forall2
                 (fun en b =>
                    List.forallb readable (fst en) = true
                    /\ snd en <> ""
                    /\ Base64.b64decode (snd en) = Some b)
                 [([], "aGk="); ([Up_yield asked; Up_stop], "aGVsbG8=")]
                 [["h"; "i"]%byte; ["h"; "e"; "l"; "l"; "o"]%byte]).
  { repeat constructor; discriminate. }
  assert (Hpc : At_while <> Done) by discriminate.
  exact (proj2 (audio_chunks_are_forwarded_in_order env_ok Base64.b64decode
                  Base64.b64encode _ _ (fun _ _ => eq_refl)
                  (fun _ _ => eq_refl) HF At_while w Hpc eq_refl eq_refl)).
Defined.
